(** * contrib/signet/getcoins.py: PPM decoder, braille renderer, faucet URL check

    A shallow embedding of the three self-contained pieces of the script:
    the class [PPMImage], the function [print_image] and the predicate
    [is_valid_faucet_url] together with the block of the module's top level
    that submits the claim.

    Python values are modelled as follows.
    - [bytes] objects and the contents of a [BytesIO] are [list byte];
    - Python integers are [Z];
    - a tuple of ints (one pixel) is [list Z];
    - [str] objects are [string]; a printed line is the list of its
      codepoints;
    - a raised exception is the [Raise] branch of [res];
    - [print] appends one line to the standard output, a [list line]
      threaded through [print_image];
    - the HTTP calls of the top level are recorded in a trace.

    Integers are unbounded; the two places where the interpreter bounds them
    are modelled: [int] refuses a literal of more than 4300 digits (the
    default of [sys.int_info]), and [f.read] a size that does not fit a C
    [ssize_t], taken as 64 bits. Memory is unbounded. *)

From Stdlib Require Import ZArith List Bool Lia String Ascii.
From Stdlib Require Import Strings.Byte.
Import ListNotations.
Open Scope Z_scope.

(* ================================================================= *)
(** ** Exceptions and results *)

(** The arguments of the exceptions the code can raise. *)
Inductive message : Type :=
| Msg (s : string)
| MsgUrl (s : string) (url : string)          (* an f-string ending in a URL *)
| MsgClass (s : string) (cls : string)        (* ... ending in a class's repr *)
| InvalidLiteral (tok : list byte)            (* int() on a bad literal *)
| NotEnoughValues (got : nat)                 (* unpacking, too few items *)
| TooManyValues                               (* unpacking, too many items *)
| DigitLimit (digits : nat)                   (* int() on an over-long literal *)
| ChrOutOfRange.

Inductive exn : Type :=
| ValueError (m : message)
| IndexError
| OverflowError
| RequestException
| SystemExit (m : message).

(** [SystemExit] derives from [BaseException] only; the others derive from
    [Exception]. *)
Definition is_Exception (e : exn) : bool :=
  match e with
  | SystemExit _ => false
  | _ => true
  end.

Inductive res (A : Type) : Type :=
| Ok (a : A)
| Raise (e : exn).
Arguments Ok {A} a.
Arguments Raise {A} e.

Definition rbind {A B} (r : res A) (k : A -> res B) : res B :=
  match r with
  | Ok a => k a
  | Raise e => Raise e
  end.

Notation "x <- r ;; k" := (rbind r (fun x => k))
  (at level 61, r at next level, right associativity).

(** A [for] loop whose body updates one loop-carried variable and may raise. *)
Fixpoint for_each {A St} (xs : list A) (body : St -> A -> res St) (s : St)
  : res St :=
  match xs with
  | [] => Ok s
  | x :: xs' => s' <- body s x ;; for_each xs' body s'
  end.

(* ================================================================= *)
(** ** Python sequences *)

(** [range(n)] *)
Definition range (n : Z) : list Z := map Z.of_nat (seq 0 (Z.to_nat n)).

Definition len {A} (l : list A) : Z := Z.of_nat (List.length l).

(** [l[i]]: negative indices count from the end; out of range raises
    [IndexError]. *)
Definition py_index {A} (l : list A) (i : Z) : res A :=
  let j := if i <? 0 then i + len l else i in
  if j <? 0 then Raise IndexError
  else match nth_error l (Z.to_nat j) with
       | Some a => Ok a
       | None => Raise IndexError
       end.

(** [l[a:b]] with both bounds given, step 1. *)
Definition clamp {A} (l : list A) (i : Z) : Z :=
  if i <? 0 then Z.max 0 (i + len l) else Z.min i (len l).

Definition py_slice {A} (l : list A) (a b : Z) : list A :=
  let a' := clamp l a in
  let b' := clamp l b in
  firstn (Z.to_nat (b' - a')) (skipn (Z.to_nat a') l).

(* ================================================================= *)
(** ** bytes *)

Definition bytes := list byte.

Definition NL : byte := x0a.
Definition SP : byte := x20.

(** The ASCII whitespace of [bytes.rstrip()] and of [int()]:
    space, \t, \n, \v, \f, \r. *)
Definition is_space (b : byte) : bool :=
  match b with
  | x20 | x09 | x0a | x0b | x0c | x0d => true
  | _ => false
  end.

(** The value of an ASCII decimal digit. *)
Definition digit_val (b : byte) : option Z :=
  match b with
  | x30 => Some 0 | x31 => Some 1 | x32 => Some 2 | x33 => Some 3
  | x34 => Some 4 | x35 => Some 5 | x36 => Some 6 | x37 => Some 7
  | x38 => Some 8 | x39 => Some 9
  | _ => None
  end.

Definition is_digit (b : byte) : bool :=
  match digit_val b with Some _ => true | None => false end.

Fixpoint lstrip (s : bytes) : bytes :=
  match s with
  | b :: s' => if is_space b then lstrip s' else s
  | [] => []
  end.

(** [s.rstrip()] *)
Definition rstrip (s : bytes) : bytes := rev (lstrip (rev s)).

(** [s.split(sep)] for a one-byte separator: every occurrence splits, empty
    pieces are kept. [cur] is the piece being read, reversed. *)
Fixpoint split_aux (sep : byte) (s : bytes) (cur : bytes) : list bytes :=
  match s with
  | [] => [rev cur]
  | b :: s' =>
      if Byte.eqb b sep then rev cur :: split_aux sep s' []
      else split_aux sep s' (b :: cur)
  end.

Definition split (sep : byte) (s : bytes) : list bytes := split_aux sep s [].

(** The digits of an integer literal after the first one: a digit, or an
    underscore followed by a digit. Returns the value and what is left. *)
Fixpoint int_digits (s : bytes) (acc : Z) : Z * bytes :=
  match s with
  | b :: s' =>
      match digit_val b with
      | Some d => int_digits s' (acc * 10 + d)
      | None =>
          match b, s' with
          | x5f, c :: s'' =>
              match digit_val c with
              | Some d => int_digits s'' (acc * 10 + d)
              | None => (acc, s)
              end
          | _, _ => (acc, s)
          end
      end
  | [] => (acc, [])
  end.

(** The grammar and the value of [int(s)] for [s : bytes], base 10:
    optional whitespace, optional sign, digits with single underscores
    between them, optional whitespace. [None] stands for a malformed
    literal. *)
Definition parse_int (s : bytes) : option Z :=
  let s1 := lstrip s in
  let '(sign, s2) :=
    match s1 with
    | x2b :: r => (1, r)
    | x2d :: r => (-1, r)
    | _ => (1, s1)
    end in
  match s2 with
  | b :: s3 =>
      match digit_val b with
      | Some d =>
          let '(v, rest) := int_digits s3 d in
          match lstrip rest with
          | [] => Some (sign * v)
          | _ :: _ => None
          end
      | None => None
      end
  | [] => None
  end.

(** The number of digits of a literal, leading zeros included. *)
Definition count_digits (s : bytes) : nat :=
  List.length (filter is_digit s).

Definition MAX_STR_DIGITS : nat := 4300.

(** [int(s)]: [ValueError] on a malformed literal, and on a well-formed one
    of more than [MAX_STR_DIGITS] digits. *)
Definition int (s : bytes) : res Z :=
  match parse_int s with
  | Some v =>
      if (MAX_STR_DIGITS <? count_digits s)%nat then
        Raise (ValueError (DigitLimit (count_digits s)))
      else Ok v
  | None => Raise (ValueError (InvalidLiteral s))
  end.

(** [tuple(b)] for [b : bytes]: the bytes as ints. *)
Definition byte_val (b : byte) : Z := Z.of_N (Byte.to_N b).
Definition tuple (b : bytes) : list Z := map byte_val b.

(* ================================================================= *)
(** ** io.BytesIO: the state is what is left to read *)

(** [f.readline()]: up to and including the first newline, or to the end. *)
Fixpoint readline (f : bytes) : bytes * bytes :=
  match f with
  | [] => ([], [])
  | b :: f' =>
      if Byte.eqb b NL then ([b], f')
      else let '(l, r) := readline f' in (b :: l, r)
  end.

(** [f.read(n)]: at most [n] bytes; everything when [n] is negative;
    [OverflowError] when [n] does not fit a C [ssize_t] (64 bits). *)
Definition fits_ssize_t (n : Z) : bool :=
  (- 2 ^ 63 <=? n) && (n <? 2 ^ 63).

Definition read (f : bytes) (n : Z) : res (bytes * bytes) :=
  if negb (fits_ssize_t n) then Raise OverflowError
  else if n <? 0 then Ok (f, [])
  else Ok (firstn (Z.to_nat n) f, skipn (Z.to_nat n) f).

(* ================================================================= *)
(** ** Module constants *)

Definition ALLOWED_DOMAINS : list string :=
  ["trusted-domain.com"; "another-trusted-domain.com"]%string.

Definition BASE : Z := 0x2800.
Definition BIT_PER_PIXEL : list (list Z) :=
  [ [0x01; 0x08];
    [0x02; 0x10];
    [0x04; 0x20];
    [0x40; 0x80] ].
Definition BW : Z := 2.
Definition BH : Z := 4.

(* ================================================================= *)
(** ** class PPMImage *)

Definition pixel := list Z.

Record PPMImage : Type := mkPPMImage {
  size : Z * Z;
  _grid : list (list pixel)
}.

(** [(width, height) = (int(x) for x in tokens)]: the generator is pulled
    twice, then once more to see that it is exhausted. *)
Definition unpack2 (tokens : list bytes) : res (Z * Z) :=
  match tokens with
  | [] => Raise (ValueError (NotEnoughValues 0))
  | t1 :: ts =>
      width <- int t1 ;;
      match ts with
      | [] => Raise (ValueError (NotEnoughValues 1))
      | t2 :: ts' =>
          height <- int t2 ;;
          match ts' with
          | [] => Ok (width, height)
          | t3 :: _ => _ <- int t3 ;; Raise (ValueError TooManyValues)
          end
      end
  end.

Definition b_P6 : bytes := ["P"; "6"; x0a]%byte.
Definition b_255 : bytes := ["2"; "5"; "5"; x0a]%byte.

Definition bytes_eqb (a b : bytes) : bool :=
  if list_eq_dec Byte.byte_eq_dec a b then true else false.

Definition grid_of (data : bytes) (width height : Z) : list (list pixel) :=
  let stride := width * 3 in
  map (fun y =>
         map (fun x =>
                tuple (py_slice data (stride * y + 3 * x)
                                     (stride * y + 3 * (x + 1))))
             (range width))
      (range height).

(** [PPMImage.__init__(self, f)] *)
Definition PPMImage_init (f : bytes) : res PPMImage :=
  let '(l1, f) := readline f in
  if negb (bytes_eqb l1 b_P6) then
    Raise (ValueError (Msg "Invalid ppm format: header"))
  else
    let '(line, f) := readline f in
    wh <- unpack2 (split SP (rstrip line)) ;;
    let '(width, height) := wh in
    let '(l3, f) := readline f in
    if negb (bytes_eqb l3 b_255) then
      Raise (ValueError (Msg "Invalid ppm format: color depth"))
    else
      r <- read f (width * height * 3) ;;
      let '(data, f) := r in
      Ok (mkPPMImage (width, height) (grid_of data width height)).

(** [PPMImage.getpixel(self, pos)] *)
Definition getpixel (self : PPMImage) (pos : Z * Z) : res pixel :=
  row <- py_index (_grid self) (snd pos) ;;
  py_index row (fst pos).

(* ================================================================= *)
(** ** print_image *)

(** A printed line, as the codepoints of its characters; the standard output
    as the lines printed so far. *)
Definition line := list Z.
Definition stdout := list line.

(** Computations that print and may raise. *)
Definition IO (A : Type) : Type := stdout -> res A * stdout.

Definition io_ret {A} (a : A) : IO A := fun out => (Ok a, out).

Definition io_bind {A B} (m : IO A) (k : A -> IO B) : IO B :=
  fun out =>
    match m out with
    | (Ok a, out') => k a out'
    | (Raise e, out') => (Raise e, out')
    end.

Definition io_lift {A} (r : res A) : IO A := fun out => (r, out).

Notation "x <~ m ;; k" := (io_bind m (fun x => k))
  (at level 61, m at next level, right associativity).

(** [print(''.join(line))] *)
Definition print (l : line) : IO unit := fun out => (Ok tt, out ++ [l]).

(** A [for] loop whose body prints. *)
Fixpoint io_for {A} (xs : list A) (body : A -> IO unit) : IO unit :=
  match xs with
  | [] => io_ret tt
  | x :: xs' => _ <~ body x ;; io_for xs' body
  end.

(** [chr(i)] *)
Definition chr (i : Z) : res Z :=
  if (0 <=? i) && (i <? 0x110000) then Ok i
  else Raise (ValueError ChrOutOfRange).

(** The body of the innermost loop: the [try] protects the call of
    [getpixel] only, the [else] branch runs outside of it. *)
Definition subpixel (img : PPMImage) (threshold xb yb y : Z)
  (ch : Z) (x : Z) : res Z :=
  match getpixel img (xb * BW + x, yb * BH + y) with
  | Raise IndexError => Ok ch
  | Raise e => Raise e
  | Ok val =>
      v0 <- py_index val 0 ;;
      if v0 <? threshold then
        row <- py_index BIT_PER_PIXEL y ;;
        bit <- py_index row x ;;
        Ok (Z.lor ch bit)
      else Ok ch
  end.

(** The two loops over the sub-pixels of block [(xb, yb)], from [ch = BASE]. *)
Definition block_char (img : PPMImage) (threshold yb xb : Z) : res Z :=
  for_each (range BH)
    (fun ch y => for_each (range BW) (subpixel img threshold xb yb y) ch)
    BASE.

(** The loop over [xb], from [line = []]. *)
Definition build_line (img : PPMImage) (threshold x_blocks yb : Z)
  : res line :=
  for_each (range x_blocks)
    (fun line xb =>
       ch <- block_char img threshold yb xb ;;
       c <- chr ch ;;
       Ok (line ++ [c]))
    [].

Definition print_image (img : PPMImage) (threshold : Z) : IO unit :=
  let x_blocks := (fst (size img) + BW - 1) / BW in
  let y_blocks := (snd (size img) + BH - 1) / BH in
  io_for (range y_blocks)
    (fun yb =>
       line <~ io_lift (build_line img threshold x_blocks yb) ;;
       print line).

(* ================================================================= *)
(** ** Values exchanged with the faucet *)

(** The form sent to the faucet: the dict [data]. *)
Record form : Type := mkForm {
  address : string;
  password : string;
  amount : string;
  captcha : option string
}.

(** The HTTP calls made for the claim, oldest first. *)
Inductive http_call : Type :=
| POST (url : string) (data : form).

(** [x in l] for a [str] or [None] and a list of [str]. *)
Definition py_in (x : option string) (l : list string) : bool :=
  match x with
  | Some s => existsb (String.eqb s) l
  | None => false
  end.

Definition exn_class (e : exn) : string :=
  match e with
  | ValueError _ => "<class 'ValueError'>"
  | IndexError => "<class 'IndexError'>"
  | OverflowError => "<class 'OverflowError'>"
  | RequestException => "<class 'requests.exceptions.RequestException'>"
  | SystemExit _ => "<class 'SystemExit'>"
  end.


(* ================================================================= *)
(** ** Notions used by the statements *)

(** The three header lines as [__init__] reads them, and what follows. *)
Definition magic_line (f : bytes) : bytes := fst (readline f).
Definition dims_line (f : bytes) : bytes := fst (readline (snd (readline f))).
Definition depth_line (f : bytes) : bytes :=
  fst (readline (snd (readline (snd (readline f))))).
Definition pixel_data (f : bytes) : bytes :=
  snd (readline (snd (readline (snd (readline f))))).

(** The value of a string of decimal digits. *)
Definition decimal (s : bytes) : Z :=
  fold_left (fun acc b => acc * 10 + match digit_val b with
                                     | Some d => d
                                     | None => 0
                                     end) s 0.

(** The invariant of a pixel grid: [size] agrees with [_grid] and every
    pixel has three components. *)
Definition well_formed (img : PPMImage) : Prop :=
  0 <= fst (size img) /\ 0 <= snd (size img) /\
  len (_grid img) = snd (size img) /\
  Forall (fun row => len row = fst (size img)) (_grid img) /\
  Forall (Forall (fun px : pixel => List.length px = 3%nat)) (_grid img).

(** Every pixel of the grid has a first channel, and it satisfies [P]. *)
Definition first_channels (P : Z -> Prop) (img : PPMImage) : Prop :=
  Forall (Forall (fun px : pixel => exists v rest, px = v :: rest /\ P v))
         (_grid img).

(** The character of block [(xb, yb)] in the printed text, and the entry
    of the bit table for sub-pixel [(x, y)]. *)
Definition char_at (text : list line) (yb xb : Z) : res Z :=
  l <- py_index text yb ;; py_index l xb.
Definition bit_at (y x : Z) : res Z :=
  row <- py_index BIT_PER_PIXEL y ;; py_index row x.

(** Whether the renderer sees position [(px, py)] as set: [getpixel]
    answers and the first channel is below the threshold. *)
Definition dark (img : PPMImage) (threshold px py : Z) : bool :=
  match getpixel img (px, py) with
  | Ok (v :: _) => v <? threshold
  | _ => false
  end.

(** The codepoint of a block whose sub-pixel [(x, y)] is set when [d x y]:
    the two inner loops of [print_image] without the lookups. *)
Definition set_bit (d : Z -> Z -> bool) (y : Z) (ch x : Z) : Z :=
  if d x y then
    match bit_at y x with
    | Ok b => Z.lor ch b
    | Raise _ => ch
    end
  else ch.

Definition block_value (d : Z -> Z -> bool) : Z :=
  fold_left (fun ch y => fold_left (set_bit d y) (range BW) ch)
            (range BH) BASE.

(** The 256 fillings of a block, for checking [block_value] by evaluation:
    [decode8 bs] reads sub-pixel [(x, y)] at index [2*y + x] of [bs]. *)
Definition decode8 (bs : list bool) (x y : Z) : bool :=
  nth (Z.to_nat (y * 2 + x)) bs false.

Definition tabulate8 (d : Z -> Z -> bool) : list bool :=
  [d 0 0; d 1 0; d 0 1; d 1 1; d 0 2; d 1 2; d 0 3; d 1 3].

Definition bits_check (bs : list bool) : bool :=
  let v := block_value (decode8 bs) in
  (0x2800 <=? v) && (v <=? 0x28FF) &&
  forallb (fun y =>
             forallb (fun x =>
                        match bit_at y x with
                        | Ok b => Z.land v b =? (if decode8 bs x y then b else 0)
                        | Raise _ => false
                        end)
                     (range BW))
          (range BH).

Definition all_bool (p : bool -> bool) : bool := p true && p false.

(** The text of an image: one line per row of blocks, one codepoint per
    block. *)
Definition rendered (img : PPMImage) (threshold : Z) : list line :=
  map (fun yb =>
         map (fun xb =>
                block_value
                  (fun x y => dark img threshold (xb * BW + x) (yb * BH + y)))
             (range ((fst (size img) + BW - 1) / BW)))
      (range ((snd (size img) + BH - 1) / BH)).

(** Two images of the same size whose pixels agree on the first channel
    (or are both empty), position by position. *)
Definition same_first_channel (img img' : PPMImage) : Prop :=
  size img = size img' /\
  Forall2 (Forall2 (fun p q : pixel => hd_error p = hd_error q))
          (_grid img) (_grid img').

(* ================================================================= *)
(** ** Sample inputs *)

Definition b_1x1_header : bytes := (b_P6 ++ ["1"; " "; "1"; x0a] ++ b_255)%byte.
Definition b_1x1_black : bytes := (b_1x1_header ++ [x00; x00; x00])%byte.
Definition b_2x1 : bytes :=
  (b_P6 ++ ["2"; " "; "1"; x0a] ++ b_255 ++ [x00; x01; x02; xff; xfe; xfd])%byte.
(** Both dimensions negative, of a product that does not fit 64 bits. *)
Definition b_huge_negative : bytes :=
  b_P6 ++ list_byte_of_string "-4294967296 -4294967296" ++ [NL] ++ b_255.
(** The numbers separated by a tab, and by two spaces. *)
Definition b_1x1_tab : bytes :=
  (b_P6 ++ ["1"; x09; "1"; x0a] ++ b_255 ++ [x00; x00; x00])%byte.
Definition b_1x1_two_spaces : bytes :=
  (b_P6 ++ ["1"; " "; " "; "1"; x0a] ++ b_255 ++ [x00; x00; x00])%byte.
Definition img_1x1_black : PPMImage := mkPPMImage (1, 1) [[[0; 0; 0]]].
Definition img_2x4_black : PPMImage :=
  mkPPMImage (2, 4) (repeat (repeat [0; 0; 0] 2) 4).
Definition img_3x5_white : PPMImage :=
  mkPPMImage (3, 5) (repeat (repeat [255; 255; 255] 3) 5).

(* ================================================================= *)
(** ** The command line and the wallet *)

Definition DEFAULT_GLOBAL_FAUCET : string := "https://signetfaucet.com/claim".
Definition DEFAULT_GLOBAL_CAPTCHA : string := "https://signetfaucet.com/captcha".
Definition GLOBAL_FIRST_BLOCK_HASH : string :=
  "00000086d6b2636cb2a392d45edc4ec544a10024d30141c9adf4bfd9de533b53".

(** The namespace returned by [parser.parse_args()]. *)
Module args.
Record t : Type := mk {
  cmd : string;
  faucet : string;
  captcha : string;
  addr : string;
  password : string;
  amount : string;
  imagemagick : string;
  bitcoin_cli_args : list string
}.
Definition set_bitcoin_cli_args (a : t) (v : list string) : t :=
  mk (cmd a) (faucet a) (captcha a) (addr a) (password a) (amount a)
     (imagemagick a) v.
Definition set_captcha (a : t) (v : string) : t :=
  mk (cmd a) (faucet a) v (addr a) (password a) (amount a)
     (imagemagick a) (bitcoin_cli_args a).
Definition set_addr (a : t) (v : string) : t :=
  mk (cmd a) (faucet a) (captcha a) v (password a) (amount a)
     (imagemagick a) (bitcoin_cli_args a).
End args.

(** [s.lower()] on the ASCII letters; the other characters of the string
    are left as they are. *)
Definition ascii_lower (c : Ascii.ascii) : Ascii.ascii :=
  let n := Ascii.nat_of_ascii c in
  if ((65 <=? n) && (n <=? 90))%nat then Ascii.ascii_of_nat (n + 32) else c.

Fixpoint str_lower (s : string) : string :=
  match s with
  | EmptyString => EmptyString
  | String c s' => String (ascii_lower c) (str_lower s')
  end.

Definition newline : string := String (Ascii.ascii_of_nat 10) EmptyString.

(* ================================================================= *)
(** ** urlparse(url).hostname *)

(** Modelled from Python's [urllib.parse] (standard library, not part of
    the repository): the [hostname] attribute of [urlparse(url)], for a URL
    of printable ASCII characters. The scheme is split off at the first
    colon, the network location runs from [//] to the first of [/], [?],
    [#]; of it the user information up to the last [@] and the port from
    the first colon are dropped, and what is left is lower-cased (a zone
    after [%] apart). Unbalanced brackets are [ValueError]. Not modelled:
    the removal of control characters and leading spaces, the check of
    non-ASCII network locations, and the validation of a bracketed host as
    an IP literal. *)
Fixpoint break_at (stop : ascii -> bool) (s : string) : string * string :=
  match s with
  | EmptyString => (EmptyString, EmptyString)
  | String c s' =>
      if stop c then (EmptyString, s)
      else let '(a, b) := break_at stop s' in (String c a, b)
  end.

Fixpoint string_forallb (p : ascii -> bool) (s : string) : bool :=
  match s with
  | EmptyString => true
  | String c s' => p c && string_forallb p s'
  end.

Definition contains (c : ascii) (s : string) : bool :=
  negb (string_forallb (fun a => negb (Ascii.eqb a c)) s).

(** [s.rpartition(c)[2]] when [c] occurs in [s]. *)
Fixpoint after_last (c : ascii) (s : string) : option string :=
  match s with
  | EmptyString => None
  | String a s' =>
      match after_last c s' with
      | Some r => Some r
      | None => if Ascii.eqb a c then Some s' else None
      end
  end.

Definition is_ascii_alpha (c : ascii) : bool :=
  let n := nat_of_ascii c in
  (((65 <=? n) && (n <=? 90)) || ((97 <=? n) && (n <=? 122)))%nat.

Definition is_scheme_char (c : ascii) : bool :=
  let n := nat_of_ascii c in
  is_ascii_alpha c || ((48 <=? n) && (n <=? 57))%nat
  || Ascii.eqb c "+" || Ascii.eqb c "-" || Ascii.eqb c ".".

(** The URL without its scheme, when it has one. *)
Definition strip_scheme (url : string) : string :=
  match break_at (Ascii.eqb ":") url with
  | (String c pre, String _ rest) =>
      if is_ascii_alpha c && string_forallb is_scheme_char pre then rest
      else url
  | _ => url
  end.

Definition netloc_of (url : string) : string :=
  match strip_scheme url with
  | String "/" (String "/" r) =>
      fst (break_at (fun c => Ascii.eqb c "/" || Ascii.eqb c "?"
                              || Ascii.eqb c "#") r)
  | _ => EmptyString
  end.

Definition hostname_of_netloc (netloc : string) : option string :=
  let hostinfo :=
    match after_last "@" netloc with Some r => r | None => netloc end in
  let hostname :=
    match snd (break_at (Ascii.eqb "[") hostinfo) with
    | String _ bracketed => fst (break_at (Ascii.eqb "]") bracketed)
    | EmptyString => fst (break_at (Ascii.eqb ":") hostinfo)
    end in
  match hostname with
  | EmptyString => None
  | _ => let '(h, zone) := break_at (Ascii.eqb "%") hostname in
         Some (str_lower h ++ zone)%string
  end.

Definition urlparse_hostname_model (url : string) : res (option string) :=
  let netloc := netloc_of url in
  if (contains "[" netloc && negb (contains "]" netloc))
     || (contains "]" netloc && negb (contains "[" netloc))
  then Raise (ValueError (Msg "Invalid IPv6 URL"))
  else Ok (hostname_of_netloc netloc).

(** [b.strip()] *)
Definition strip (b : bytes) : bytes := lstrip (rstrip b).

(** How [subprocess.check_output] ends: with the output of the process, or
    with one of the two exceptions [bitcoin_cli] handles. *)
Inductive check_output_result : Type :=
| Completed (output : bytes)
| FileNotFoundError
| CalledProcessError.

(** Computations that run processes and may raise; the state is the list of
    the command lines run so far, oldest first. *)
Definition Proc (A : Type) : Type :=
  list (list string) -> res A * list (list string).

Definition proc_ret {A} (a : A) : Proc A := fun ps => (Ok a, ps).

Definition proc_raise {A} (e : exn) : Proc A := fun ps => (Raise e, ps).

Definition proc_bind {A B} (m : Proc A) (k : A -> Proc B) : Proc B :=
  fun ps =>
    match m ps with
    | (Ok a, ps') => k a ps'
    | (Raise e, ps') => (Raise e, ps')
    end.

Notation "x <* m ;; k" := (proc_bind m (fun x => k))
  (at level 61, m at next level, right associativity).

(** Two sample command lines: a faucet of one's own with an address given,
    and the defaults of the parser with an address given. *)
Definition args_custom : args.t :=
  args.mk "bitcoin-cli" "https://trusted-domain.com/claim"
          DEFAULT_GLOBAL_CAPTCHA "tb1qexample" "" "0.001" "convert" [].
Definition args_default : args.t :=
  args.mk "bitcoin-cli" DEFAULT_GLOBAL_FAUCET
          DEFAULT_GLOBAL_CAPTCHA "tb1qexample" "" "0.001" "convert" [].

(** The command line of a wallet call once [bitcoin_cli_args] has got its
    default. *)
Definition wallet_argv (a : args.t) (rpc : list string) : list string :=
  args.cmd a ::
  match args.bitcoin_cli_args a with
  | [] => ["-signet"%string]
  | l => l
  end ++ rpc.

(* ================================================================= *)
(** ** is_valid_faucet_url and the claim submission, with their properties *)

Section Faucet.

(** Collaborators outside the script:
    - [urlparse(url).hostname], a [str] or [None], or [ValueError] from
      [urlparse];
    - the truth value of [validators.domain(h)] ([True], or a falsy
      failure object);
    - the answer of the faucet to [requests.post]. *)
Variable urlparse_hostname : string -> res (option string).
Variable validators_domain : option string -> bool.
Variable response : Type.
Variable requests_post : string -> form -> res response.

Definition is_valid_faucet_url (url : string) : res bool :=
  hostname <- urlparse_hostname url ;;
  if negb (validators_domain hostname) then Ok false
  else if negb (py_in hostname ALLOWED_DOMAINS) then Ok false
  else Ok true.

(** The [try] block of the top level (script lines 176-187), run on the
    trace [net] of the HTTP calls made so far for the claim. *)
Definition try_body (faucet_url : string) (data : form)
  (net : list http_call) : res response * list http_call :=
  match is_valid_faucet_url faucet_url with
  | Raise e => (Raise e, net)
  | Ok valid =>
      if negb valid then
        (Raise (ValueError
                  (MsgUrl "Invalid or untrusted faucet URL: " faucet_url)),
         net)
      else (requests_post faucet_url data, net ++ [POST faucet_url data])
  end.

Definition submit_claim (faucet_url : string) (data : form)
  (net : list http_call) : res response * list http_call :=
  match try_body faucet_url data net with
  | (Raise e, net') =>
      if is_Exception e then
        (Raise (SystemExit
                  (MsgClass "Unexpected error when contacting faucet: "
                            (exn_class e))),
         net')
      else (Raise e, net')
  | (Ok r, net') => (Ok r, net')
  end.

(** Collaborators of the wallet call: [subprocess.check_output(argv)] and
    [bytes.decode()], which gives the [str] or raises [UnicodeDecodeError],
    a [ValueError]. *)
Variable check_output : list string -> check_output_result.
Variable decode : bytes -> res string.

(** [bitcoin_cli(rpc_command_and_params)], with [args] as a parameter. *)
Definition bitcoin_cli (a : args.t) (rpc_command_and_params : list string)
  : Proc string :=
  fun ps =>
    let argv :=
      [args.cmd a] ++ args.bitcoin_cli_args a ++ rpc_command_and_params in
    match check_output argv with
    | Completed output => (decode (strip output), ps ++ [argv])
    | FileNotFoundError =>
        (Raise (SystemExit
                  (Msg ("The binary " ++ args.cmd a
                        ++ " could not be found"))),
         ps ++ [argv])
    | CalledProcessError =>
        (Raise (SystemExit
                  (Msg ("-----" ++ newline ++ "Error while calling "
                        ++ String.concat " " argv
                        ++ " (see output above)."))),
         ps ++ [argv])
    end.

(** Script lines 109-110: the default of [bitcoin_cli_args]. *)
Definition default_cli_args (a : args.t) : args.t :=
  match args.bitcoin_cli_args a with
  | [] => args.set_bitcoin_cli_args a ["-signet"%string]
  | _ :: _ => a
  end.

(** Script lines 124-132: the check of the network for the default faucet,
    the captcha default for the others. *)
Definition check_network (a : args.t) : Proc args.t :=
  if String.eqb (str_lower (args.faucet a)) DEFAULT_GLOBAL_FAUCET then
    curr_signet_hash <* bitcoin_cli a ["getblockhash"; "1"]%string ;;
    if negb (String.eqb curr_signet_hash GLOBAL_FIRST_BLOCK_HASH) then
      proc_raise
        (SystemExit
           (Msg ("The global faucet cannot be used with a custom Signet network. Please use the global signet or setup your custom faucet to use this functionality."
                 ++ newline)))
    else proc_ret a
  else
    if String.eqb (args.captcha a) DEFAULT_GLOBAL_CAPTCHA then
      proc_ret (args.set_captcha a "")
    else proc_ret a.

(** Script lines 134-136: the address to receive the coins. *)
Definition resolve_address (a : args.t) : Proc args.t :=
  if String.eqb (args.addr a) "" then
    new_addr <* bitcoin_cli a ["getnewaddress"; "faucet"; "bech32"]%string ;;
    proc_ret (args.set_addr a new_addr)
  else proc_ret a.

(** The top level from the defaulting of [bitcoin_cli_args] to the
    construction of [data] (script lines 109-138): the namespace as it is
    afterwards, and [data]. *)
Definition prepare (a : args.t) : Proc (args.t * form) :=
  a <* check_network (default_cli_args a) ;;
  a <* resolve_address a ;;
  proc_ret (a, mkForm (args.addr a) (args.password a) (args.amount a) None).

(** *** Properties of the URL check and of the submission *)

Lemma py_in_iff (x : option string) (l : list string) :
  py_in x l = true <-> exists s, x = Some s /\ In s l.
Proof.
  unfold py_in. destruct x as [s|].
  - rewrite existsb_exists. split.
    + intros (s' & Hin & Heq). apply String.eqb_eq in Heq. subst s'. eauto.
    + intros (s' & [= <-] & Hin). exists s. split; [assumption|].
      apply String.eqb_refl.
  - split; [discriminate|]. intros (s & [=] & _).
Qed.

Lemma is_valid_true_iff (url : string) :
  is_valid_faucet_url url = Ok true <->
  exists h, urlparse_hostname url = Ok (Some h) /\
            validators_domain (Some h) = true /\ In h ALLOWED_DOMAINS.
Proof.
  unfold is_valid_faucet_url.
  destruct (urlparse_hostname url) as [host|e]; simpl.
  - destruct (validators_domain host) eqn:Ev; simpl.
    + destruct (py_in host ALLOWED_DOMAINS) eqn:Ein; simpl.
      * apply py_in_iff in Ein. destruct Ein as (s & -> & Hin).
        split; [eauto|reflexivity].
      * split; [discriminate|].
        intros (h & [= ->] & _ & Hin).
        assert (py_in (Some h) ALLOWED_DOMAINS = true)
          by (apply py_in_iff; eauto).
        congruence.
    + split; [discriminate|]. intros (h & [= ->] & Hv & _). congruence.
  - split; [discriminate|]. intros (h & [=] & _).
Qed.

(** X22: a URL that [urlparse] refuses with [ValueError] aborts the
    submission as well, in [SystemExit] and without a request. *)
Lemma unparsable_url_aborts (url : string) (data : form)
  (net : list http_call) (m : message) :
  urlparse_hostname url = Raise (ValueError m) ->
  exists m', submit_claim url data net = (Raise (SystemExit m'), net).
Proof.
  intros H. unfold submit_claim, try_body, is_valid_faucet_url.
  rewrite H. simpl. eauto.
Qed.

(** An accepted URL is posted to, once. *)
Lemma trusted_url_posted (url : string) (data : form)
  (net : list http_call) (r : response) :
  is_valid_faucet_url url = Ok true -> requests_post url data = Ok r ->
  submit_claim url data net = (Ok r, net ++ [POST url data]).
Proof.
  unfold submit_claim, try_body. intros -> ->. reflexivity.
Qed.

(** C2: when the host of the claim URL is not in the allow-list, or is
    not a domain for [validators.domain], [is_valid_faucet_url] returns
    [False] and the submission ends in [SystemExit] with the trace of
    HTTP calls unchanged: no request is made, whatever the form holds. *)
Theorem untrusted_url_rejected (url : string) (host : option string)
  (data : form) (net : list http_call) :
  urlparse_hostname url = Ok host ->
  validators_domain host = false \/
  (forall h, host = Some h -> ~ In h ALLOWED_DOMAINS) ->
  is_valid_faucet_url url = Ok false /\
  exists m, submit_claim url data net = (Raise (SystemExit m), net).
Proof.
  intros Hhost Hbad.
  assert (Hv : is_valid_faucet_url url = Ok false).
  { unfold is_valid_faucet_url. rewrite Hhost. simpl.
    destruct (validators_domain host) eqn:Ev; simpl; [|reflexivity].
    destruct (py_in host ALLOWED_DOMAINS) eqn:Ein; simpl; [|reflexivity].
    apply py_in_iff in Ein. destruct Ein as (s & -> & Hin).
    destruct Hbad as [Hbad|Hbad]; [discriminate|].
    exfalso. now apply (Hbad s). }
  split; [exact Hv|].
  unfold submit_claim, try_body. rewrite Hv. simpl. eauto.
Qed.

(** C3, as amended: [is_valid_faucet_url] accepts a URL only if the host
    name that [urlparse] reports for it, which is the host of the URL in
    lower case, is character for character one of the two entries of the
    allow-list. *)
Theorem allow_list_exact (url : string) :
  is_valid_faucet_url url = Ok true ->
  exists h,
    urlparse_hostname url = Ok (Some h) /\
    (h = "trusted-domain.com"%string \/
     h = "another-trusted-domain.com"%string).
Proof.
  intros H. apply is_valid_true_iff in H.
  destruct H as (h & Hh & _ & Hin).
  exists h. split; [assumption|].
  simpl in Hin. destruct Hin as [<-|[<-|[]]]; auto.
Qed.

(** *** Further properties of the submission *)

(** X14: the submission makes at most one request, a POST to the claim URL
    with the form, and makes it only when the host that [urlparse] reports
    is accepted by [validators.domain] and is in the allow-list. *)
Theorem post_only_to_allowed_host (url : string) (data : form)
  (net : list http_call) :
  snd (submit_claim url data net) = net \/
  (snd (submit_claim url data net) = net ++ [POST url data] /\
   exists h, urlparse_hostname url = Ok (Some h) /\
             validators_domain (Some h) = true /\ In h ALLOWED_DOMAINS).
Proof.
  unfold submit_claim, try_body.
  destruct (is_valid_faucet_url url) as [[|]|e] eqn:E; simpl.
  - right. apply is_valid_true_iff in E.
    split; [|assumption].
    destruct (requests_post url data) as [r|e]; [reflexivity|].
    now destruct (is_Exception e).
  - now left.
  - left. now destruct (is_Exception e).
Qed.

(** X15: whatever goes wrong in the submission, a refused URL, a URL that
    [urlparse] rejects or a failing request, the exception that leaves the
    [try] block is [SystemExit]. *)
Theorem submit_raises_SystemExit (url : string) (data : form)
  (net : list http_call) (e : exn) :
  fst (submit_claim url data net) = Raise e -> exists m, e = SystemExit m.
Proof.
  unfold submit_claim.
  destruct (try_body url data net) as [[r|e'] net']; simpl; [discriminate|].
  destruct e'; simpl; intros [= <-]; eauto.
Qed.

(** X16: the default faucet is refused by the script's own allow-list: when
    [urlparse] reports the host of [DEFAULT_GLOBAL_FAUCET] as
    [signetfaucet.com], the check returns [False] and the submission ends
    in [SystemExit] without a request. *)
Theorem default_faucet_refused (data : form) (net : list http_call) :
  urlparse_hostname DEFAULT_GLOBAL_FAUCET = Ok (Some "signetfaucet.com"%string) ->
  is_valid_faucet_url DEFAULT_GLOBAL_FAUCET = Ok false /\
  submit_claim DEFAULT_GLOBAL_FAUCET data net
  = (Raise (SystemExit
              (MsgClass "Unexpected error when contacting faucet: "
                        "<class 'ValueError'>")),
     net).
Proof.
  intros H.
  assert (Hv : is_valid_faucet_url DEFAULT_GLOBAL_FAUCET = Ok false).
  { unfold is_valid_faucet_url. rewrite H. simpl.
    now destruct (validators_domain _). }
  split; [assumption|].
  unfold submit_claim, try_body. now rewrite Hv.
Qed.

(** *** Properties of the wallet calls *)

Lemma bitcoin_cli_trace (a : args.t) (rpc : list string)
  (ps : list (list string)) :
  snd (bitcoin_cli a rpc ps)
  = ps ++ [args.cmd a :: args.bitcoin_cli_args a ++ rpc].
Proof.
  unfold bitcoin_cli. now destruct (check_output _).
Qed.

Lemma bitcoin_cli_raises (a : args.t) (rpc : list string)
  (ps : list (list string)) (e : exn) :
  fst (bitcoin_cli a rpc ps) = Raise e ->
  (exists m, e = SystemExit m) \/ (exists b, decode b = Raise e).
Proof.
  unfold bitcoin_cli. destruct (check_output _); simpl.
  - intros H. right. eauto.
  - intros [= <-]. left. eauto.
  - intros [= <-]. left. eauto.
Qed.

Lemma wallet_argv_default (a : args.t) (rpc : list string) :
  args.cmd (default_cli_args a)
  :: args.bitcoin_cli_args (default_cli_args a) ++ rpc
  = wallet_argv a rpc.
Proof.
  unfold default_cli_args, wallet_argv.
  now destruct (args.bitcoin_cli_args a) eqn:E; simpl; rewrite ?E.
Qed.

Lemma default_cli_args_fields (a : args.t) :
  args.faucet (default_cli_args a) = args.faucet a /\
  args.captcha (default_cli_args a) = args.captcha a /\
  args.addr (default_cli_args a) = args.addr a /\
  args.password (default_cli_args a) = args.password a /\
  args.amount (default_cli_args a) = args.amount a.
Proof.
  unfold default_cli_args. now destruct (args.bitcoin_cli_args a).
Qed.

(** What a step leaves of the namespace: everything but, possibly, the
    captcha URL ([check_network]) or the address ([resolve_address]). *)
Lemma check_network_Ok (a a' : args.t) (ps ps' : list (list string)) :
  check_network a ps = (Ok a', ps') ->
  args.cmd a' = args.cmd a /\
  args.bitcoin_cli_args a' = args.bitcoin_cli_args a /\
  args.faucet a' = args.faucet a /\ args.addr a' = args.addr a /\
  args.password a' = args.password a /\ args.amount a' = args.amount a.
Proof.
  unfold check_network, proc_bind, proc_ret, proc_raise.
  destruct (String.eqb (str_lower (args.faucet a)) DEFAULT_GLOBAL_FAUCET).
  - destruct (bitcoin_cli a _ ps) as [[h|e] ps1]; [|discriminate].
    destruct (negb _); [discriminate|]. intros [= <- _]. auto 10.
  - destruct (String.eqb (args.captcha a) DEFAULT_GLOBAL_CAPTCHA);
      intros [= <- _]; auto 10.
Qed.

Lemma check_network_trace (a : args.t) (ps : list (list string)) :
  snd (check_network a ps) = ps \/
  snd (check_network a ps)
  = ps ++ [args.cmd a :: args.bitcoin_cli_args a
           ++ ["getblockhash"; "1"]%string].
Proof.
  unfold check_network, proc_bind, proc_ret, proc_raise.
  destruct (String.eqb (str_lower (args.faucet a)) DEFAULT_GLOBAL_FAUCET).
  - right.
    pose proof (bitcoin_cli_trace a ["getblockhash"; "1"]%string ps) as T.
    destruct (bitcoin_cli a _ ps) as [[h|e] ps1]; simpl in T; subst ps1;
      [|reflexivity].
    now destruct (negb _).
  - left. now destruct (String.eqb (args.captcha a) DEFAULT_GLOBAL_CAPTCHA).
Qed.

Lemma check_network_raises (a : args.t) (ps : list (list string)) (e : exn) :
  fst (check_network a ps) = Raise e ->
  (exists m, e = SystemExit m) \/ (exists b, decode b = Raise e).
Proof.
  unfold check_network, proc_bind, proc_ret, proc_raise.
  destruct (String.eqb (str_lower (args.faucet a)) DEFAULT_GLOBAL_FAUCET).
  - pose proof (bitcoin_cli_raises a ["getblockhash"; "1"]%string ps e) as Hb.
    destruct (bitcoin_cli a _ ps) as [[h|e'] ps1]; simpl in *.
    + destruct (negb _); simpl; [|discriminate]. intros [= <-]. left. eauto.
    + intros [= ->]. now apply Hb.
  - now destruct (String.eqb (args.captcha a) DEFAULT_GLOBAL_CAPTCHA).
Qed.

Lemma resolve_address_Ok (a a' : args.t) (ps ps' : list (list string)) :
  resolve_address a ps = (Ok a', ps') ->
  args.faucet a' = args.faucet a /\ args.captcha a' = args.captcha a /\
  args.password a' = args.password a /\ args.amount a' = args.amount a /\
  (args.addr a <> ""%string -> a' = a /\ ps' = ps).
Proof.
  unfold resolve_address, proc_bind, proc_ret.
  destruct (String.eqb (args.addr a) "") eqn:Ea.
  - destruct (bitcoin_cli a _ ps) as [[n|e] ps1]; [|discriminate].
    intros [= <- _]. apply String.eqb_eq in Ea. simpl. repeat split.
    all: congruence.
  - intros [= <- <-]. auto 10.
Qed.

Lemma resolve_address_trace (a : args.t) (ps : list (list string)) :
  snd (resolve_address a ps) = ps \/
  snd (resolve_address a ps)
  = ps ++ [args.cmd a :: args.bitcoin_cli_args a
           ++ ["getnewaddress"; "faucet"; "bech32"]%string].
Proof.
  unfold resolve_address, proc_bind, proc_ret.
  destruct (String.eqb (args.addr a) ""); [right|now left].
  pose proof (bitcoin_cli_trace a
                ["getnewaddress"; "faucet"; "bech32"]%string ps) as T.
  now destruct (bitcoin_cli a _ ps) as [[n|e] ps1].
Qed.

Lemma resolve_address_raises (a : args.t) (ps : list (list string))
  (e : exn) :
  fst (resolve_address a ps) = Raise e ->
  (exists m, e = SystemExit m) \/ (exists b, decode b = Raise e).
Proof.
  unfold resolve_address, proc_bind, proc_ret.
  destruct (String.eqb (args.addr a) ""); [|discriminate].
  pose proof (bitcoin_cli_raises a
                ["getnewaddress"; "faucet"; "bech32"]%string ps e) as Hb.
  destruct (bitcoin_cli a _ ps) as [[n|e'] ps1]; simpl in *; [discriminate|].
  intros [= ->]. now apply Hb.
Qed.

(** X17: with a faucet other than the default one (letter case apart) and
    an address on the command line, no process is run; [data] carries the
    address, password and amount of the command line, and the captcha URL
    is emptied when it was left at its default. *)
Theorem custom_faucet_skips_wallet (a : args.t) (ps : list (list string)) :
  str_lower (args.faucet a) <> DEFAULT_GLOBAL_FAUCET ->
  args.addr a <> ""%string ->
  exists a',
    prepare a ps
    = (Ok (a', mkForm (args.addr a) (args.password a) (args.amount a) None),
       ps) /\
    args.faucet a' = args.faucet a /\
    args.captcha a'
    = if String.eqb (args.captcha a) DEFAULT_GLOBAL_CAPTCHA then ""%string
      else args.captcha a.
Proof.
  intros Hf Ha. apply String.eqb_neq in Hf. apply String.eqb_neq in Ha.
  destruct (default_cli_args_fields a) as (Ef & Eg & Ead & Ep & Eam).
  set (a0 := default_cli_args a) in *.
  set (a1 := if String.eqb (args.captcha a) DEFAULT_GLOBAL_CAPTCHA
             then args.set_captcha a0 "" else a0).
  assert (E1 : check_network a0 ps = (Ok a1, ps)).
  { unfold check_network, a1. rewrite Ef, Hf, Eg.
    now destruct (String.eqb (args.captcha a) DEFAULT_GLOBAL_CAPTCHA). }
  assert (Hfields : args.addr a1 = args.addr a /\
                    args.password a1 = args.password a /\
                    args.amount a1 = args.amount a /\
                    args.faucet a1 = args.faucet a).
  { unfold a1.
    destruct (String.eqb (args.captcha a) DEFAULT_GLOBAL_CAPTCHA);
      simpl; auto. }
  destruct Hfields as (Had1 & Hp1 & Ham1 & Hf1).
  assert (E2 : resolve_address a1 ps = (Ok a1, ps)).
  { unfold resolve_address. now rewrite Had1, Ha. }
  exists a1. unfold prepare, proc_bind. fold a0. rewrite E1, E2.
  unfold proc_ret. rewrite Had1, Hp1, Ham1.
  split; [reflexivity|]. split; [assumption|].
  unfold a1.
  destruct (String.eqb (args.captcha a) DEFAULT_GLOBAL_CAPTCHA);
    [reflexivity|assumption].
Qed.

(** X18: [data] is built from the command line: when the preparation
    succeeds, password and amount are those given, no captcha answer is set
    yet, the faucet URL is unchanged, and an address given on the command
    line is the one sent. *)
Theorem prepared_form (a a' : args.t) (data : form)
  (ps ps' : list (list string)) :
  prepare a ps = (Ok (a', data), ps') ->
  address data = args.addr a' /\
  password data = args.password a /\ amount data = args.amount a /\
  captcha data = None /\ args.faucet a' = args.faucet a /\
  (args.addr a <> ""%string -> address data = args.addr a).
Proof.
  destruct (default_cli_args_fields a) as (Ef & Eg & Ead & Ep & Eam).
  unfold prepare, proc_bind, proc_ret.
  destruct (check_network (default_cli_args a) ps) as [[a1|e] ps1] eqn:E1;
    [|discriminate].
  destruct (resolve_address a1 ps1) as [[a2|e] ps2] eqn:E2; [|discriminate].
  intros [= <- <- _].
  apply check_network_Ok in E1.
  destruct E1 as (_ & _ & Hf1 & Had1 & Hp1 & Ham1).
  apply resolve_address_Ok in E2.
  destruct E2 as (Hf2 & _ & Hp2 & Ham2 & Hkeep).
  cbn [address password amount captcha].
  repeat split; try congruence.
  intros Hne. destruct Hkeep as [-> _]; congruence.
Qed.

(** X19: the preparation runs the wallet command and nothing else, at most
    twice: each command line it runs is [cmd], the wallet arguments
    ([-signet] when none was given) and either [getblockhash 1] or
    [getnewaddress faucet bech32]. *)
Theorem prepare_runs_only_wallet (a : args.t) (ps : list (list string)) :
  exists new,
    snd (prepare a ps) = ps ++ new /\ (List.length new <= 2)%nat /\
    Forall (fun argv =>
              argv = wallet_argv a ["getblockhash"; "1"]%string \/
              argv = wallet_argv a ["getnewaddress"; "faucet"; "bech32"]%string)
           new.
Proof.
  unfold prepare, proc_bind, proc_ret.
  pose proof (check_network_trace (default_cli_args a) ps) as T1.
  rewrite wallet_argv_default in T1.
  destruct (check_network (default_cli_args a) ps) as [[a1|e] ps1] eqn:E1;
    cbn [snd] in *.
  - apply check_network_Ok in E1. destruct E1 as (Hc & Hcli & _).
    pose proof (resolve_address_trace a1 ps1) as T2.
    rewrite Hc, Hcli, wallet_argv_default in T2.
    assert (Hsnd : snd (let (r, ps') := resolve_address a1 ps1 in
                        match r with
                        | Ok a0 =>
                            (Ok (a0, mkForm (args.addr a0) (args.password a0)
                                       (args.amount a0) None), ps')
                        | Raise e => (Raise e, ps')
                        end) = snd (resolve_address a1 ps1))
      by now destruct (resolve_address a1 ps1) as [[a2|e] ps2].
    rewrite Hsnd.
    destruct T1 as [-> | ->]; destruct T2 as [-> | ->].
    + exists []. rewrite app_nil_r. repeat split; [simpl; lia|constructor].
    + eexists. split; [reflexivity|]. split; [simpl; lia|].
      constructor; [now right|constructor].
    + eexists. split; [reflexivity|]. split; [simpl; lia|].
      constructor; [now left|constructor].
    + rewrite <- app_assoc. eexists. split; [reflexivity|].
      split; [simpl; lia|].
      constructor; [now left|]. constructor; [now right|constructor].
  - destruct T1 as [-> | ->].
    + exists []. rewrite app_nil_r. repeat split; [simpl; lia|constructor].
    + eexists. split; [reflexivity|]. split; [simpl; lia|].
      constructor; [now left|constructor].
Qed.

(** X20: the preparation ends either normally, or in [SystemExit], or in
    the [ValueError] that decoding the wallet's output raised; nothing else
    leaves it. *)
Theorem prepare_raises (a : args.t) (ps : list (list string)) (e : exn) :
  fst (prepare a ps) = Raise e ->
  (exists m, e = SystemExit m) \/ (exists b, decode b = Raise e).
Proof.
  unfold prepare, proc_bind, proc_ret.
  pose proof (check_network_raises (default_cli_args a) ps e) as H1.
  destruct (check_network (default_cli_args a) ps) as [[a1|e1] ps1];
    simpl in *.
  - pose proof (resolve_address_raises a1 ps1 e) as H2.
    destruct (resolve_address a1 ps1) as [[a2|e2] ps2]; simpl in *;
      [discriminate|].
    intros [= ->]. now apply H2.
  - intros [= ->]. now apply H1.
Qed.

(** X21: with the default faucet (letter case apart) the preparation
    succeeds only if the first process run was [getblockhash 1] and its
    output, stripped and decoded, is [GLOBAL_FIRST_BLOCK_HASH]. *)
Theorem default_faucet_checks_chain (a : args.t) (r : args.t * form)
  (ps ps' : list (list string)) :
  str_lower (args.faucet a) = DEFAULT_GLOBAL_FAUCET ->
  prepare a ps = (Ok r, ps') ->
  exists output rest,
    check_output (wallet_argv a ["getblockhash"; "1"]%string)
    = Completed output /\
    decode (strip output) = Ok GLOBAL_FIRST_BLOCK_HASH /\
    ps' = ps ++ wallet_argv a ["getblockhash"; "1"]%string :: rest.
Proof.
  intros Hf. apply String.eqb_eq in Hf.
  destruct (default_cli_args_fields a) as (Ef & _).
  unfold prepare, proc_bind, proc_ret.
  destruct (check_network (default_cli_args a) ps) as [[a1|e] ps1] eqn:E1;
    [|discriminate].
  pose proof (resolve_address_trace a1 ps1) as T2.
  destruct (resolve_address a1 ps1) as [[a2|e] ps2]; [|discriminate].
  cbn [snd] in T2. intros [= _ <-].
  unfold check_network, proc_bind, proc_ret, proc_raise in E1.
  rewrite Ef, Hf in E1.
  unfold bitcoin_cli in E1. cbv zeta in E1.
  change ([args.cmd (default_cli_args a)]
          ++ args.bitcoin_cli_args (default_cli_args a)
          ++ ["getblockhash"; "1"]%string)
    with (args.cmd (default_cli_args a)
          :: args.bitcoin_cli_args (default_cli_args a)
          ++ ["getblockhash"; "1"]%string) in E1.
  rewrite wallet_argv_default in E1.
  destruct (check_output (wallet_argv a ["getblockhash"; "1"]%string))
    as [output| |]; [|discriminate|discriminate].
  destruct (decode (strip output)) as [h|e] eqn:Ed; [|discriminate].
  destruct (String.eqb h GLOBAL_FIRST_BLOCK_HASH) eqn:Eh; simpl negb in E1;
    [|discriminate].
  apply String.eqb_eq in Eh. subst h.
  injection E1 as _ <-.
  exists output.
  destruct T2 as [-> | ->].
  - exists []. auto.
  - eexists. split; [reflexivity|]. split; [assumption|].
    rewrite <- app_assoc. reflexivity.
Qed.

End Faucet.

(* ================================================================= *)
(** * Properties *)

(** ** Sequences *)

Lemma range_length (n : Z) : List.length (range n) = Z.to_nat n.
Proof. unfold range. now rewrite length_map, length_seq. Qed.

Lemma range_In (n x : Z) : In x (range n) <-> 0 <= x < n.
Proof.
  unfold range. rewrite in_map_iff. split.
  - intros (k & <- & Hk). apply in_seq in Hk. lia.
  - intros H. exists (Z.to_nat x). split; [lia|]. apply in_seq. lia.
Qed.

Lemma range_nonpos (n : Z) : n <= 0 -> range n = [].
Proof.
  intros H. unfold range. replace (Z.to_nat n) with 0%nat by lia. reflexivity.
Qed.

Lemma range_nth (n : Z) (k : nat) :
  (k < Z.to_nat n)%nat -> nth_error (range n) k = Some (Z.of_nat k).
Proof.
  intros H. unfold range. rewrite nth_error_map.
  rewrite nth_error_nth' with (d := 0%nat) by now rewrite length_seq.
  simpl. now rewrite seq_nth.
Qed.

Lemma py_index_nonneg {A} (l : list A) (i : Z) :
  0 <= i ->
  py_index l i = match nth_error l (Z.to_nat i) with
                 | Some a => Ok a
                 | None => Raise IndexError
                 end.
Proof.
  intros H. unfold py_index.
  destruct (i <? 0) eqn:E; [lia|]. now rewrite E.
Qed.

Lemma py_index_out {A} (l : list A) (i : Z) :
  ~ (- len l <= i < len l) -> py_index l i = Raise IndexError.
Proof.
  intros H. unfold py_index, len in *.
  destruct (i <? 0) eqn:E.
  - destruct (i + _ <? 0) eqn:E'; [reflexivity | lia].
  - rewrite E.
    destruct (nth_error l (Z.to_nat i)) eqn:N; [|reflexivity].
    assert (Z.to_nat i < List.length l)%nat
      by (apply nth_error_Some; congruence).
    lia.
Qed.

Lemma py_index_in_range {A} (l : list A) (i : Z) :
  - len l <= i < len l -> exists a, py_index l i = Ok a /\ In a l.
Proof.
  intros H. unfold py_index, len in *.
  set (j := if i <? 0 then i + Z.of_nat (List.length l) else i).
  assert (Hj : 0 <= j < Z.of_nat (List.length l))
    by (subst j; destruct (i <? 0) eqn:E; lia).
  destruct (j <? 0) eqn:E; [lia|].
  destruct (nth_error l (Z.to_nat j)) eqn:N.
  - exists a. split; [reflexivity|]. eapply nth_error_In; eauto.
  - apply nth_error_None in N. lia.
Qed.

Lemma py_index_Ok_In {A} (l : list A) (i : Z) (a : A) :
  py_index l i = Ok a -> In a l.
Proof.
  unfold py_index. destruct (_ <? 0); [discriminate|].
  destruct (nth_error l _) eqn:N; [|discriminate].
  intros [= <-]. eapply nth_error_In; eauto.
Qed.

Lemma py_index_raises {A} (l : list A) (i : Z) (e : exn) :
  py_index l i = Raise e -> e = IndexError.
Proof.
  unfold py_index. destruct (_ <? 0); [congruence|].
  destruct (nth_error l _); congruence.
Qed.

(** ** The decoder *)

Lemma bytes_eqb_eq (a b : bytes) : bytes_eqb a b = true <-> a = b.
Proof.
  unfold bytes_eqb. destruct (list_eq_dec _ a b); split; congruence.
Qed.

Lemma bytes_eqb_neq (a b : bytes) : bytes_eqb a b = false <-> a <> b.
Proof.
  unfold bytes_eqb. destruct (list_eq_dec _ a b); split; congruence.
Qed.

(** [__init__] in terms of the three lines it reads. *)
Lemma PPMImage_init_eq (f : bytes) :
  PPMImage_init f =
  if negb (bytes_eqb (magic_line f) b_P6) then
    Raise (ValueError (Msg "Invalid ppm format: header"))
  else
    wh <- unpack2 (split SP (rstrip (dims_line f))) ;;
    if negb (bytes_eqb (depth_line f) b_255) then
      Raise (ValueError (Msg "Invalid ppm format: color depth"))
    else
      r <- read (pixel_data f) (fst wh * snd wh * 3) ;;
      Ok (mkPPMImage wh (grid_of (fst r) (fst wh) (snd wh))).
Proof.
  unfold PPMImage_init, magic_line, dims_line, depth_line, pixel_data.
  destruct (readline f) as [l1 f1]; simpl.
  destruct (negb (bytes_eqb l1 b_P6)); [reflexivity|].
  destruct (readline f1) as [l2 f2]; simpl.
  destruct (unpack2 (split SP (rstrip l2))) as [[w h]|e]; simpl; [|reflexivity].
  destruct (readline f2) as [l3 f3]; simpl.
  destruct (negb (bytes_eqb l3 b_255)); [reflexivity|].
  destruct (read f3 (w * h * 3)) as [[data f4]|e]; reflexivity.
Qed.

Lemma read_raises (f : bytes) (n : Z) (e : exn) :
  read f n = Raise e -> e = OverflowError /\ fits_ssize_t n = false.
Proof.
  unfold read. destruct (fits_ssize_t n); simpl.
  - destruct (n <? 0); discriminate.
  - intros [= <-]. auto.
Qed.

Lemma read_fits (f : bytes) (n : Z) :
  - 2 ^ 63 <= n < 2 ^ 63 ->
  read f n = Ok (if n <? 0 then (f, [])
                 else (firstn (Z.to_nat n) f, skipn (Z.to_nat n) f)).
Proof.
  intros H. unfold read, fits_ssize_t.
  destruct (- 2 ^ 63 <=? n) eqn:E1; [|lia].
  destruct (n <? 2 ^ 63) eqn:E2; [|lia]. simpl.
  now destruct (n <? 0).
Qed.

Lemma read_overflow (f : bytes) (n : Z) :
  ~ (- 2 ^ 63 <= n < 2 ^ 63) -> read f n = Raise OverflowError.
Proof.
  intros H. unfold read, fits_ssize_t.
  destruct (- 2 ^ 63 <=? n) eqn:E1; destruct (n <? 2 ^ 63) eqn:E2;
    simpl; try reflexivity. lia.
Qed.

Lemma unpack2_raises (tokens : list bytes) (e : exn) :
  unpack2 tokens = Raise e -> exists m, e = ValueError m.
Proof.
  assert (Hint : forall t e', int t = Raise e' -> exists m, e' = ValueError m).
  { intros t e'. unfold int. destruct (parse_int t);
      [destruct (_ <? _)%nat|]; intros [= <-]; eauto. }
  unfold unpack2.
  destruct tokens as [|t1 [|t2 [|t3 ts]]]; simpl;
    repeat (match goal with
            | |- context [int ?t] =>
                let E := fresh "E" in
                destruct (int t) eqn:E; simpl;
                [|apply Hint in E; destruct E as (? & ->)]
            end);
    intros [= <-]; eauto.
Qed.

Lemma grid_of_length (data : bytes) (w h : Z) :
  len (grid_of data w h) = Z.max 0 h.
Proof. unfold grid_of, len. rewrite length_map, range_length. lia. Qed.

Lemma grid_of_rows (data : bytes) (w h : Z) :
  Forall (fun row => len row = Z.max 0 w) (grid_of data w h).
Proof.
  unfold grid_of. apply Forall_forall. intros row Hin.
  apply in_map_iff in Hin. destruct Hin as (y & <- & _).
  unfold len. rewrite length_map, range_length. lia.
Qed.

Lemma decoded_grid (f : bytes) (img : PPMImage) :
  PPMImage_init f = Ok img ->
  exists data,
    _grid img = grid_of data (fst (size img)) (snd (size img)).
Proof.
  rewrite PPMImage_init_eq.
  destruct (negb _); [discriminate|].
  destruct (unpack2 _) as [[w h]|e]; simpl; [|discriminate].
  destruct (negb _); [discriminate|].
  destruct (read _ _) as [r|e]; simpl; [|discriminate].
  intros [= <-]. simpl. eauto.
Qed.

Lemma getpixel_grid_raises (g : list (list pixel)) (sz : Z * Z) (w h x y : Z) :
  len g = Z.max 0 h ->
  Forall (fun row => len row = Z.max 0 w) g ->
  (getpixel (mkPPMImage sz g) (x, y) = Raise IndexError
   <-> ~ (- w <= x < w /\ - h <= y < h)).
Proof.
  intros Hg Hrows. unfold getpixel; simpl.
  destruct (Z_lt_dec y (- h)) as [Hy|Hy];
    [rewrite py_index_out by lia; simpl; split; [lia|reflexivity]|].
  destruct (Z_lt_dec y h) as [Hy'|Hy'];
    [|rewrite py_index_out by lia; simpl; split; [lia|reflexivity]].
  destruct (py_index_in_range g y) as (row & -> & Hin); [lia|]. simpl.
  rewrite Forall_forall in Hrows. specialize (Hrows row Hin).
  destruct (Z_lt_dec x (- w)) as [Hx|Hx];
    [rewrite py_index_out by lia; split; [lia|reflexivity]|].
  destruct (Z_lt_dec x w) as [Hx'|Hx'];
    [|rewrite py_index_out by lia; split; [lia|reflexivity]].
  destruct (py_index_in_range row x) as (px & -> & _); [lia|].
  split; [discriminate|lia].
Qed.

(** C4, as amended: on a decoded grid of width [w] and height [h],
    [getpixel (x, y)] raises [IndexError] exactly when
    not ([-w <= x < w] and [-h <= y < h]); a negative coordinate down to
    [-w] (resp. [-h]) is in range and counts from the end. *)
Theorem getpixel_IndexError_iff (f : bytes) (img : PPMImage) (w h x y : Z) :
  PPMImage_init f = Ok img ->
  size img = (w, h) ->
  (getpixel img (x, y) = Raise IndexError
   <-> ~ (- w <= x < w /\ - h <= y < h)).
Proof.
  intros Hdec Hsize.
  destruct (decoded_grid f img Hdec) as (data & Hgrid).
  rewrite Hsize in Hgrid; simpl in Hgrid.
  destruct img as [sz g]; simpl in *. subst g.
  apply getpixel_grid_raises.
  - apply grid_of_length.
  - apply grid_of_rows.
Qed.

Lemma getpixel_IndexError_iff_witness :
  getpixel img_1x1_black (1, 0) = Raise IndexError
  <-> ~ (- 1 <= 1 < 1 /\ - 1 <= 0 < 1).
Proof.
  apply (getpixel_IndexError_iff b_1x1_black img_1x1_black 1 1 1 0);
    reflexivity.
Defined.

(** C4 as stated fails: the grid decoded from a 1x1 image answers the
    out-of-range position (-1, -1) with its only pixel. *)
Lemma getpixel_negative_index_accepted :
  PPMImage_init b_1x1_black = Ok img_1x1_black /\
  size img_1x1_black = (1, 1) /\
  ~ (0 <= -1 < 1 /\ 0 <= -1 < 1) /\
  getpixel img_1x1_black (-1, -1) = Ok [0; 0; 0].
Proof. repeat split; try reflexivity. lia. Qed.

Lemma py_slice_length {A} (l : list A) (a b : Z) :
  0 <= a <= b ->
  List.length (py_slice l a b)
  = Z.to_nat (Z.min b (len l) - Z.min a (len l)).
Proof.
  intros H. unfold py_slice, clamp, len.
  destruct (a <? 0) eqn:Ea; [lia|].
  destruct (b <? 0) eqn:Eb; [lia|].
  rewrite length_firstn, length_skipn. lia.
Qed.

Lemma getpixel_grid_of (data : bytes) (sz : Z * Z) (w h x y : Z) :
  0 <= x < w -> 0 <= y < h ->
  getpixel (mkPPMImage sz (grid_of data w h)) (x, y)
  = Ok (tuple (py_slice data (w * 3 * y + 3 * x) (w * 3 * y + 3 * (x + 1)))).
Proof.
  intros Hx Hy. unfold getpixel, grid_of; simpl.
  rewrite py_index_nonneg by lia.
  rewrite nth_error_map, range_nth by lia. simpl.
  rewrite py_index_nonneg by lia.
  rewrite nth_error_map, range_nth by lia. simpl.
  now rewrite !Z2Nat.id by lia.
Qed.

Lemma byte_val_range (b : byte) : 0 <= byte_val b < 256.
Proof.
  unfold byte_val. pose proof (Byte.to_N_bounded b). lia.
Qed.

(** C1, as amended: a wrong magic line fails with the header [ValueError];
    after a good magic line a wrong depth line fails with a [ValueError],
    the colour-depth one when the dimension line parses; no grid is
    returned in either case. Missing pixel data is not detected: after a
    good header whose size [width*height*3] fits a signed 64-bit integer,
    the decoder returns a grid for whatever follows, and when fewer than
    [width*height*3] bytes follow, the last pixel has fewer than three
    components. When the size does not fit, [f.read] fails with
    [OverflowError]. *)
Theorem decode_failures (f : bytes) :
  (magic_line f <> b_P6 ->
   PPMImage_init f = Raise (ValueError (Msg "Invalid ppm format: header")))
  /\
  (magic_line f = b_P6 -> depth_line f <> b_255 ->
   (exists m, PPMImage_init f = Raise (ValueError m)) /\
   (forall wh, unpack2 (split SP (rstrip (dims_line f))) = Ok wh ->
      PPMImage_init f
      = Raise (ValueError (Msg "Invalid ppm format: color depth"))))
  /\
  (magic_line f = b_P6 -> depth_line f = b_255 ->
   forall w h, unpack2 (split SP (rstrip (dims_line f))) = Ok (w, h) ->
     (- 2 ^ 63 <= w * h * 3 < 2 ^ 63 ->
      exists img,
        PPMImage_init f = Ok img /\ size img = (w, h) /\
        len (_grid img) = Z.max 0 h /\
        Forall (fun row => len row = Z.max 0 w) (_grid img) /\
        (0 < w -> 0 < h -> len (pixel_data f) < w * h * 3 ->
         exists px, getpixel img (w - 1, h - 1) = Ok px /\ len px < 3)) /\
     (~ (- 2 ^ 63 <= w * h * 3 < 2 ^ 63) ->
      PPMImage_init f = Raise OverflowError)).
Proof.
  rewrite PPMImage_init_eq. split; [|split].
  - intros H. apply bytes_eqb_neq in H. now rewrite H.
  - intros Hm Hd. apply bytes_eqb_eq in Hm. apply bytes_eqb_neq in Hd.
    rewrite Hm, Hd; simpl. split.
    + destruct (unpack2 _) as [wh|e] eqn:E; simpl; [eauto|].
      apply unpack2_raises in E. destruct E as (m & ->). eauto.
    + intros wh ->. reflexivity.
  - intros Hm Hd w h Hwh. apply bytes_eqb_eq in Hm. apply bytes_eqb_eq in Hd.
    rewrite Hm, Hd, Hwh; simpl. split.
    + intros Hfit. rewrite read_fits by assumption. simpl.
      eexists. split; [reflexivity|]. simpl.
      split; [reflexivity|].
      split; [apply grid_of_length|].
      split; [apply grid_of_rows|].
      intros Hw Hh Hlen.
      rewrite getpixel_grid_of by lia.
      eexists. split; [reflexivity|].
      replace (w * 3 * (h - 1) + 3 * (w - 1 + 1)) with (w * h * 3) by ring.
      replace (w * 3 * (h - 1) + 3 * (w - 1)) with (w * h * 3 - 3) by ring.
      assert (0 <= w * h * 3 - 3) by nia.
      unfold len, tuple. rewrite length_map, py_slice_length by lia.
      destruct (w * h * 3 <? 0) eqn:E; [lia|]. cbn [fst].
      unfold len in *. rewrite length_firstn. lia.
    + intros Hover. now rewrite read_overflow.
Qed.

Lemma decode_failures_witness :
  PPMImage_init [x50; x35; x0a]%byte
  = Raise (ValueError (Msg "Invalid ppm format: header")).
Proof.
  apply (proj1 (decode_failures [x50; x35; x0a]%byte)). discriminate.
Defined.

(** C1 as stated fails: a good 1x1 header followed by no pixel data at all
    (0 bytes where 3 are due) decodes to a grid whose pixel is empty. *)
Lemma truncated_data_accepted :
  magic_line b_1x1_header = b_P6 /\
  depth_line b_1x1_header = b_255 /\
  unpack2 (split SP (rstrip (dims_line b_1x1_header))) = Ok (1, 1) /\
  len (pixel_data b_1x1_header) < 1 * 1 * 3 /\
  PPMImage_init b_1x1_header = Ok (mkPPMImage (1, 1) [[[]]]).
Proof. repeat split. Qed.

(** C10, as amended: after the magic line, a dimension line whose two
    tokens parse as integers [w], [h] of which one is zero or negative, and
    the depth line, [__init__] succeeds, whatever follows, provided
    [w*h*3] fits a signed 64-bit integer; the grid has the size read and no
    position of it can be accessed. With a height of zero or less the grid
    is empty. *)
Theorem nonpositive_dimensions_accepted (f : bytes) (w h : Z) :
  magic_line f = b_P6 ->
  unpack2 (split SP (rstrip (dims_line f))) = Ok (w, h) ->
  depth_line f = b_255 ->
  w <= 0 \/ h <= 0 ->
  - 2 ^ 63 <= w * h * 3 < 2 ^ 63 ->
  exists img,
    PPMImage_init f = Ok img /\ size img = (w, h) /\
    (forall x y, getpixel img (x, y) = Raise IndexError) /\
    (h <= 0 -> _grid img = []).
Proof.
  intros Hm Hwh Hd Hneg Hfit.
  rewrite PPMImage_init_eq.
  apply bytes_eqb_eq in Hm. apply bytes_eqb_eq in Hd.
  rewrite Hm, Hd, Hwh; simpl. rewrite read_fits by assumption. simpl.
  eexists. split; [reflexivity|]. split; [reflexivity|]. split.
  - intros x y.
    apply (getpixel_grid_raises _ _ w h);
      [apply grid_of_length | apply grid_of_rows | lia].
  - intros Hh. simpl. unfold grid_of. now rewrite (range_nonpos h).
Qed.

Lemma nonpositive_dimensions_accepted_witness :
  exists img,
    PPMImage_init (b_P6 ++ ["0"; " "; "0"; x0a] ++ b_255)%byte = Ok img /\
    size img = (0, 0) /\
    (forall x y, getpixel img (x, y) = Raise IndexError) /\
    (0 <= 0 -> _grid img = []).
Proof.
  apply (nonpositive_dimensions_accepted
           (b_P6 ++ ["0"; " "; "0"; x0a] ++ b_255)%byte 0 0);
    try reflexivity.
  - left. lia.
  - lia.
Defined.

(** C10 as stated fails: with both dimensions equal to [-2^32] the size
    [3 * 2^64] does not fit 64 bits and construction ends in
    [OverflowError]. *)
Lemma huge_nonpositive_dimensions_overflow :
  magic_line b_huge_negative = b_P6 /\
  unpack2 (split SP (rstrip (dims_line b_huge_negative)))
  = Ok (- 4294967296, - 4294967296) /\
  depth_line b_huge_negative = b_255 /\
  - 4294967296 <= 0 /\
  PPMImage_init b_huge_negative = Raise OverflowError.
Proof. repeat split. discriminate. Qed.

(** ** Reading a well-formed header *)

Lemma digit_not_special (b : byte) :
  is_digit b = true ->
  is_space b = false /\ b <> NL /\ b <> SP /\ b <> x2b /\ b <> x2d.
Proof. destruct b; intros H; try discriminate H; repeat split; discriminate. Qed.

Lemma readline_app (l r : bytes) :
  Forall (fun b => b <> NL) l -> readline (l ++ NL :: r) = (l ++ [NL], r).
Proof.
  induction 1 as [|b l Hb _ IH]; simpl.
  - reflexivity.
  - destruct (Byte.eqb b NL) eqn:E.
    + apply Byte.byte_dec_bl in E. contradiction.
    + now rewrite IH.
Qed.

Lemma header_lines (l data : bytes) :
  Forall (fun b => b <> NL) l ->
  let f := b_P6 ++ l ++ NL :: b_255 ++ data in
  magic_line f = b_P6 /\ dims_line f = l ++ [NL] /\
  depth_line f = b_255 /\ pixel_data f = data.
Proof.
  intros Hl f. subst f.
  unfold magic_line, dims_line, depth_line, pixel_data.
  change (readline (b_P6 ++ l ++ NL :: b_255 ++ data))
    with (b_P6, l ++ NL :: b_255 ++ data).
  cbn [fst snd]. rewrite readline_app by assumption.
  cbn [fst snd]. repeat split.
Qed.

Lemma rstrip_newline (l : bytes) : rstrip (l ++ [NL]) = rstrip l.
Proof. unfold rstrip. now rewrite rev_app_distr. Qed.

Lemma rstrip_nonspace (l : bytes) (b : byte) :
  is_space b = false -> rstrip (l ++ [b]) = l ++ [b].
Proof.
  intros H. unfold rstrip. rewrite rev_app_distr. simpl. rewrite H.
  simpl. now rewrite rev_involutive.
Qed.

Lemma split_aux_app (sep : byte) (l s cur : bytes) :
  Forall (fun b => b <> sep) l ->
  split_aux sep (l ++ s) cur = split_aux sep s (rev l ++ cur).
Proof.
  intros H. revert cur. induction H as [|b l Hb _ IH]; intros cur; simpl.
  - reflexivity.
  - destruct (Byte.eqb b sep) eqn:E.
    + apply Byte.byte_dec_bl in E. contradiction.
    + rewrite IH, <- app_assoc. reflexivity.
Qed.

Lemma split_two (sep : byte) (a b : bytes) :
  Forall (fun c => c <> sep) a -> Forall (fun c => c <> sep) b ->
  split sep (a ++ sep :: b) = [a; b].
Proof.
  intros Ha Hb. unfold split.
  rewrite split_aux_app by assumption. simpl.
  replace (Byte.eqb sep sep) with true
    by (symmetry; now apply Byte.byte_dec_lb).
  rewrite app_nil_r, rev_involutive.
  rewrite <- (app_nil_r b) at 1.
  rewrite split_aux_app by assumption. simpl.
  now rewrite app_nil_r, rev_involutive.
Qed.

Lemma int_digits_all (s : bytes) (acc : Z) :
  Forall (fun b => is_digit b = true) s ->
  int_digits s acc
  = (fold_left (fun a b => a * 10 + match digit_val b with
                                    | Some d => d
                                    | None => 0
                                    end) s acc, []).
Proof.
  intros H. revert acc. induction H as [|b s Hb _ IH]; intros acc; simpl.
  - reflexivity.
  - unfold is_digit in Hb. destruct (digit_val b); [apply IH|discriminate].
Qed.

Lemma parse_int_digits (s : bytes) :
  s <> [] -> Forall (fun b => is_digit b = true) s ->
  parse_int s = Some (decimal s).
Proof.
  intros Hne H. destruct H as [|b s Hb Hs]; [congruence|].
  unfold parse_int, decimal.
  destruct b; try discriminate Hb;
    cbn [lstrip is_space digit_val fold_left];
    rewrite int_digits_all by assumption;
    cbn [lstrip]; now rewrite Z.mul_1_l.
Qed.

Lemma py_slice_inside {A} (l : list A) (a b : Z) :
  0 <= a <= b -> b <= len l ->
  py_slice l a b = firstn (Z.to_nat (b - a)) (skipn (Z.to_nat a) l).
Proof.
  intros H Hb. unfold py_slice, clamp.
  destruct (a <? 0) eqn:Ea; [lia|].
  destruct (b <? 0) eqn:Eb; [lia|].
  now rewrite !Z.min_l by lia.
Qed.

Lemma grid_of_well_formed (data : bytes) (w h : Z) :
  0 <= w -> 0 <= h -> len data = w * h * 3 ->
  well_formed (mkPPMImage (w, h) (grid_of data w h)).
Proof.
  intros Hw Hh Hlen. unfold well_formed; simpl.
  split; [assumption|]. split; [assumption|].
  split; [rewrite grid_of_length; lia|].
  split.
  - eapply Forall_impl; [|apply grid_of_rows]. simpl. intros row ->. lia.
  - unfold grid_of. apply Forall_forall. intros row Hrow.
    apply in_map_iff in Hrow. destruct Hrow as (y & <- & Hy).
    apply Forall_forall. intros px Hpx.
    apply in_map_iff in Hpx. destruct Hpx as (x & <- & Hx).
    apply range_In in Hy. apply range_In in Hx.
    unfold tuple. rewrite length_map, py_slice_length by nia.
    rewrite !Z.min_l by nia. lia.
Qed.

Lemma filter_digits (s : bytes) :
  Forall (fun b => is_digit b = true) s -> filter is_digit s = s.
Proof.
  induction 1 as [|b s Hb _ IH]; simpl; [reflexivity|].
  now rewrite Hb, IH.
Qed.

Lemma int_digit_string (s : bytes) :
  s <> [] -> Forall (fun b => is_digit b = true) s ->
  (List.length s <= MAX_STR_DIGITS)%nat ->
  int s = Ok (decimal s).
Proof.
  intros Hne Hd Hlen. unfold int, count_digits.
  rewrite parse_int_digits, filter_digits by assumption.
  destruct (MAX_STR_DIGITS <? List.length s)%nat eqn:E; [|reflexivity].
  apply Nat.ltb_lt in E. lia.
Qed.

Lemma int_digit_string_outcome (s : bytes) :
  s <> [] -> Forall (fun b => is_digit b = true) s ->
  int s = if (MAX_STR_DIGITS <? List.length s)%nat
          then Raise (ValueError (DigitLimit (List.length s)))
          else Ok (decimal s).
Proof.
  intros Hne Hd. unfold int, count_digits.
  now rewrite parse_int_digits, filter_digits by assumption.
Qed.

(** [__init__] after a header of two digit strings, for any bytes [rest]
    after the depth line. *)
Lemma digits_header_eq (tw th rest : bytes) :
  tw <> [] -> th <> [] ->
  Forall (fun b => is_digit b = true) tw ->
  Forall (fun b => is_digit b = true) th ->
  PPMImage_init (b_P6 ++ (tw ++ SP :: th) ++ NL :: b_255 ++ rest)
  = (w <- int tw ;; h <- int th ;;
     r <- read rest (w * h * 3) ;;
     Ok (mkPPMImage (w, h) (grid_of (fst r) w h))).
Proof.
  intros Hnw Hnh Hdw Hdh.
  assert (Hnl : Forall (fun b => b <> NL) (tw ++ SP :: th)).
  { apply Forall_app. split; [|constructor; [discriminate|]];
      (eapply Forall_impl; [|eassumption]); intros b Hb;
      now apply digit_not_special in Hb. }
  destruct (header_lines (tw ++ SP :: th) rest Hnl) as (Hm & Hdl & Hd & Hpd).
  rewrite PPMImage_init_eq, Hm, Hd, Hpd, Hdl, rstrip_newline.
  destruct (exists_last Hnh) as (th' & c & Eth).
  assert (Hc : is_space c = false).
  { rewrite Eth in Hdh. apply Forall_app in Hdh. destruct Hdh as [_ Hc].
    inversion Hc; subst. now apply digit_not_special. }
  assert (Hstrip : rstrip (tw ++ SP :: th) = tw ++ SP :: th).
  { rewrite Eth.
    replace (tw ++ SP :: th' ++ [c]) with ((tw ++ SP :: th') ++ [c])
      by (rewrite <- app_assoc; reflexivity).
    now apply rstrip_nonspace. }
  rewrite Hstrip, split_two
    by ((eapply Forall_impl; [|eassumption]); intros b Hb;
        now apply digit_not_special in Hb).
  unfold unpack2.
  destruct (int tw) as [w|e]; simpl; [|reflexivity].
  destruct (int th) as [h|e]; simpl; reflexivity.
Qed.

(** [__init__] after such a header whose numbers are within the digit
    limit and whose size fits 64 bits. *)
Lemma digits_header_init (tw th rest : bytes) :
  tw <> [] -> th <> [] ->
  Forall (fun b => is_digit b = true) tw ->
  Forall (fun b => is_digit b = true) th ->
  (List.length tw <= MAX_STR_DIGITS)%nat ->
  (List.length th <= MAX_STR_DIGITS)%nat ->
  decimal tw * decimal th * 3 < 2 ^ 63 ->
  0 <= decimal tw * decimal th * 3 ->
  PPMImage_init (b_P6 ++ (tw ++ SP :: th) ++ NL :: b_255 ++ rest)
  = Ok (mkPPMImage (decimal tw, decimal th)
          (grid_of (firstn (Z.to_nat (decimal tw * decimal th * 3)) rest)
                   (decimal tw) (decimal th))).
Proof.
  intros Hnw Hnh Hdw Hdh Hlw Hlh Hfit Hpos.
  rewrite digits_header_eq, !int_digit_string by assumption. simpl.
  rewrite read_fits by lia.
  destruct (decimal tw * decimal th * 3 <? 0) eqn:E; [lia|]. reflexivity.
Qed.

(** C5, as amended: a header made of the line [P6], a line with two
    non-empty strings of at most 4300 decimal digits, of positive values
    [w] and [h], separated by exactly one space, and the line [255],
    followed by exactly [w*h*3] bytes with [w*h*3 < 2^63], decodes to a
    grid of size [(w, h)] that satisfies the grid invariant; [getpixel
    (x, y)] returns, for all [0 <= x < w] and [0 <= y < h], the three bytes
    at offset [3*(w*y + x)] of the data, as ints below 256. *)
Theorem decode_well_formed (tw th data : bytes) :
  tw <> [] -> th <> [] ->
  Forall (fun b => is_digit b = true) tw ->
  Forall (fun b => is_digit b = true) th ->
  (List.length tw <= MAX_STR_DIGITS)%nat ->
  (List.length th <= MAX_STR_DIGITS)%nat ->
  0 < decimal tw -> 0 < decimal th ->
  len data = decimal tw * decimal th * 3 ->
  decimal tw * decimal th * 3 < 2 ^ 63 ->
  exists img,
    PPMImage_init (b_P6 ++ (tw ++ SP :: th) ++ NL :: b_255 ++ data) = Ok img /\
    size img = (decimal tw, decimal th) /\
    well_formed img /\
    forall x y, 0 <= x < decimal tw -> 0 <= y < decimal th ->
      exists px,
        getpixel img (x, y) = Ok px /\
        List.length px = 3%nat /\
        Forall (fun c => 0 <= c < 256) px /\
        px = tuple (firstn 3 (skipn (Z.to_nat (3 * (decimal tw * y + x))) data)).
Proof.
  intros Hnw Hnh Hdw Hdh Hlw Hlh Hw Hh Hlen Hfit.
  rewrite digits_header_init by (try assumption; nia).
  set (w := decimal tw) in *. set (h := decimal th) in *.
  rewrite firstn_all2 by (unfold len in Hlen; lia).
  eexists. split; [reflexivity|]. split; [reflexivity|].
  split; [apply grid_of_well_formed; lia|].
  intros x y Hx Hy.
  rewrite getpixel_grid_of by assumption.
  eexists. split; [reflexivity|].
  assert (Hin : w * 3 * y + 3 * (x + 1) <= len data) by nia.
  rewrite py_slice_inside by lia.
  replace (w * 3 * y + 3 * (x + 1) - (w * 3 * y + 3 * x)) with 3 by ring.
  replace (w * 3 * y + 3 * x) with (3 * (w * y + x)) by ring.
  split; [|split; [|reflexivity]].
  - unfold tuple. rewrite length_map, length_firstn, length_skipn.
    unfold len in *. lia.
  - unfold tuple. apply Forall_forall. intros c Hc.
    apply in_map_iff in Hc. destruct Hc as (b & <- & _).
    apply byte_val_range.
Qed.

Lemma decode_well_formed_witness :
  exists img,
    PPMImage_init b_2x1 = Ok img /\
    size img = (2, 1) /\
    well_formed img /\
    forall x y, 0 <= x < 2 -> 0 <= y < 1 ->
      exists px,
        getpixel img (x, y) = Ok px /\
        List.length px = 3%nat /\
        Forall (fun c => 0 <= c < 256) px /\
        px = tuple (firstn 3 (skipn (Z.to_nat (3 * (2 * y + x)))
                                [x00; x01; x02; xff; xfe; xfd]%byte)).
Proof.
  apply (decode_well_formed ["2"]%byte ["1"]%byte
           [x00; x01; x02; xff; xfe; xfd]%byte);
    try discriminate; try reflexivity;
    try (unfold MAX_STR_DIGITS; simpl; lia); repeat constructor.
Defined.

(** C5 as stated fails: a header whose two positive numbers are separated
    by a tab, or by two spaces, is followed by exactly [1*1*3] bytes and is
    refused with [ValueError]; the dimension line is split at single
    spaces only. *)
Lemma whitespace_separated_header_refused :
  len [x00; x00; x00]%byte = 1 * 1 * 3 /\
  PPMImage_init b_1x1_tab
  = Raise (ValueError (InvalidLiteral ["1"; x09; "1"]%byte)) /\
  PPMImage_init b_1x1_two_spaces
  = Raise (ValueError (InvalidLiteral [])).
Proof. repeat split. Qed.

(** ** The renderer *)

Lemma for_each_fold {A St} (xs : list A) (body : St -> A -> res St)
  (g : St -> A -> St) (s : St) :
  (forall s' x, In x xs -> body s' x = Ok (g s' x)) ->
  for_each xs body s = Ok (fold_left g xs s).
Proof.
  revert s. induction xs as [|x xs IH]; intros s H; simpl.
  - reflexivity.
  - rewrite H by now left. simpl. apply IH.
    intros s' x' Hin. apply H. now right.
Qed.

Lemma getpixel_raises (img : PPMImage) (pos : Z * Z) (e : exn) :
  getpixel img pos = Raise e -> e = IndexError.
Proof.
  unfold getpixel.
  destruct (py_index (_grid img) (snd pos)) as [row|e'] eqn:E; simpl.
  - apply py_index_raises.
  - intros [= <-]. eapply py_index_raises; eauto.
Qed.

Lemma getpixel_Ok_In (img : PPMImage) (pos : Z * Z) (px : pixel) :
  getpixel img pos = Ok px ->
  exists row, In row (_grid img) /\ In px row.
Proof.
  unfold getpixel.
  destruct (py_index (_grid img) (snd pos)) as [row|e'] eqn:E; simpl;
    [|discriminate].
  intros H. exists row. split; eapply py_index_Ok_In; eauto.
Qed.

Lemma first_channels_getpixel (P : Z -> Prop) (img : PPMImage)
  (pos : Z * Z) (px : pixel) :
  first_channels P img -> getpixel img pos = Ok px ->
  exists v rest, px = v :: rest /\ P v.
Proof.
  intros HP H. apply getpixel_Ok_In in H. destruct H as (row & Hrow & Hpx).
  unfold first_channels in HP. rewrite Forall_forall in HP.
  specialize (HP row Hrow). rewrite Forall_forall in HP. now apply HP.
Qed.

Lemma bit_at_defined (y x : Z) :
  0 <= y < BH -> 0 <= x < BW -> exists b, bit_at y x = Ok b.
Proof.
  unfold BH, BW. intros Hy Hx.
  assert (Ey : y = 0 \/ y = 1 \/ y = 2 \/ y = 3) by lia.
  assert (Ex : x = 0 \/ x = 1) by lia.
  destruct Ey as [-> | [-> | [-> | ->]]]; destruct Ex as [-> | ->];
    eexists; reflexivity.
Qed.

(** One turn of the innermost loop, when no pixel of the grid is empty. *)
Lemma subpixel_set_bit (img : PPMImage) (threshold xb yb y ch x : Z) :
  first_channels (fun _ => True) img ->
  0 <= y < BH -> 0 <= x < BW ->
  subpixel img threshold xb yb y ch x
  = Ok (set_bit (fun x y => dark img threshold (xb * BW + x) (yb * BH + y))
                y ch x).
Proof.
  intros Hne Hy Hx. unfold subpixel, set_bit, dark.
  destruct (getpixel img (xb * BW + x, yb * BH + y)) as [val|e] eqn:E.
  - destruct (first_channels_getpixel _ _ _ _ Hne E) as (v & rest & -> & _).
    change (py_index (v :: rest) 0) with (Ok v). simpl rbind.
    destruct (v <? threshold); [|reflexivity].
    destruct (bit_at_defined y x Hy Hx) as (b & Hb). rewrite Hb.
    unfold bit_at in Hb.
    destruct (py_index BIT_PER_PIXEL y) as [row|e]; simpl in *;
      [|discriminate].
    now rewrite Hb.
  - apply getpixel_raises in E. now subst e.
Qed.

Lemma block_char_value (img : PPMImage) (threshold yb xb : Z) :
  first_channels (fun _ => True) img ->
  block_char img threshold yb xb
  = Ok (block_value
          (fun x y => dark img threshold (xb * BW + x) (yb * BH + y))).
Proof.
  intros Hne. unfold block_char, block_value.
  apply for_each_fold. intros ch y Hy. apply range_In in Hy.
  apply for_each_fold. intros ch' x Hx. apply range_In in Hx.
  now apply subpixel_set_bit.
Qed.

Lemma block_value_ext (d d' : Z -> Z -> bool) :
  (forall x y, 0 <= x < BW -> 0 <= y < BH -> d x y = d' x y) ->
  block_value d = block_value d'.
Proof.
  intros H. unfold block_value, set_bit.
  change (range BH) with [0; 1; 2; 3]. change (range BW) with [0; 1].
  cbn [fold_left].
  rewrite !H by (unfold BW, BH; lia). reflexivity.
Qed.

Lemma block_value_none : block_value (fun _ _ => false) = 0x2800.
Proof. reflexivity. Qed.

Lemma block_value_all : block_value (fun _ _ => true) = 0x28FF.
Proof. reflexivity. Qed.

Lemma all_bool_spec (p : bool -> bool) :
  all_bool p = true -> forall b, p b = true.
Proof.
  unfold all_bool. intros H b. apply andb_prop in H. now destruct b.
Qed.

Lemma bits_check_all :
  all_bool (fun b0 => all_bool (fun b1 => all_bool (fun b2 =>
  all_bool (fun b3 => all_bool (fun b4 => all_bool (fun b5 =>
  all_bool (fun b6 => all_bool (fun b7 =>
    bits_check [b0; b1; b2; b3; b4; b5; b6; b7])))))))) = true.
Proof. vm_compute. reflexivity. Qed.

Lemma bits_check_tabulate (d : Z -> Z -> bool) :
  bits_check (tabulate8 d) = true.
Proof.
  unfold tabulate8.
  pose proof (all_bool_spec _ bits_check_all (d 0 0)) as H0. cbv beta in H0.
  pose proof (all_bool_spec _ H0 (d 1 0)) as H1. cbv beta in H1.
  pose proof (all_bool_spec _ H1 (d 0 1)) as H2. cbv beta in H2.
  pose proof (all_bool_spec _ H2 (d 1 1)) as H3. cbv beta in H3.
  pose proof (all_bool_spec _ H3 (d 0 2)) as H4. cbv beta in H4.
  pose proof (all_bool_spec _ H4 (d 1 2)) as H5. cbv beta in H5.
  pose proof (all_bool_spec _ H5 (d 0 3)) as H6. cbv beta in H6.
  exact (all_bool_spec _ H6 (d 1 3)).
Qed.

Lemma decode8_tabulate (d : Z -> Z -> bool) (x y : Z) :
  0 <= x < BW -> 0 <= y < BH -> d x y = decode8 (tabulate8 d) x y.
Proof.
  unfold BH, BW. intros Hx Hy.
  assert (Ey : y = 0 \/ y = 1 \/ y = 2 \/ y = 3) by lia.
  assert (Ex : x = 0 \/ x = 1) by lia.
  destruct Ey as [-> | [-> | [-> | ->]]]; destruct Ex as [-> | ->];
    reflexivity.
Qed.

Lemma block_value_bits (d : Z -> Z -> bool) (y x b : Z) :
  0 <= y < BH -> 0 <= x < BW -> bit_at y x = Ok b ->
  0x2800 <= block_value d <= 0x28FF /\
  Z.land (block_value d) b = if d x y then b else 0.
Proof.
  intros Hy Hx Hb.
  rewrite (block_value_ext d (decode8 (tabulate8 d)))
    by (intros; now apply decode8_tabulate).
  rewrite (decode8_tabulate d x y) by assumption.
  pose proof (bits_check_tabulate d) as H. unfold bits_check in H.
  cbv zeta in H.
  apply andb_prop in H. destruct H as [H Hbits].
  apply andb_prop in H. destruct H as [Hlo Hhi].
  split; [lia|].
  rewrite forallb_forall in Hbits.
  specialize (Hbits y (proj2 (range_In BH y) Hy)).
  rewrite forallb_forall in Hbits.
  specialize (Hbits x (proj2 (range_In BW x) Hx)).
  rewrite Hb in Hbits. now apply Z.eqb_eq in Hbits.
Qed.

Lemma chr_block_value (d : Z -> Z -> bool) :
  chr (block_value d) = Ok (block_value d).
Proof.
  destruct (block_value_bits d 0 0 1) as [H _];
    [unfold BH; lia | unfold BW; lia | reflexivity |].
  unfold chr.
  destruct (0 <=? block_value d) eqn:E1; [|lia].
  destruct (block_value d <? 0x110000) eqn:E2; [reflexivity|lia].
Qed.

Lemma fold_left_snoc {A B} (F : A -> B) (xs : list A) (acc : list B) :
  fold_left (fun l x => l ++ [F x]) xs acc = acc ++ map F xs.
Proof.
  revert acc. induction xs as [|x xs IH]; intros acc; simpl.
  - now rewrite app_nil_r.
  - rewrite IH, <- app_assoc. reflexivity.
Qed.

Lemma build_line_value (img : PPMImage) (threshold x_blocks yb : Z) :
  first_channels (fun _ => True) img ->
  build_line img threshold x_blocks yb
  = Ok (map (fun xb =>
               block_value
                 (fun x y => dark img threshold (xb * BW + x) (yb * BH + y)))
            (range x_blocks)).
Proof.
  intros Hne. unfold build_line.
  erewrite for_each_fold.
  - now rewrite fold_left_snoc.
  - intros l xb _. cbv beta.
    rewrite block_char_value by assumption. simpl rbind.
    now rewrite chr_block_value.
Qed.

Lemma io_for_print {A} (xs : list A) (body : A -> IO unit) (L : A -> line)
  (out : stdout) :
  (forall x o, In x xs -> body x o = (Ok tt, o ++ [L x])) ->
  io_for xs body out = (Ok tt, out ++ map L xs).
Proof.
  revert out. induction xs as [|x xs IH]; intros out H; simpl.
  - unfold io_ret. now rewrite app_nil_r.
  - unfold io_bind. rewrite H by now left.
    rewrite IH by (intros; apply H; now right).
    now rewrite <- app_assoc.
Qed.

(** On a grid without empty pixels [print_image] does not raise and prints
    [rendered]. *)
Lemma print_image_rendered (img : PPMImage) (threshold : Z) (out : stdout) :
  first_channels (fun _ => True) img ->
  print_image img threshold out = (Ok tt, out ++ rendered img threshold).
Proof.
  intros Hne. unfold print_image, rendered.
  apply io_for_print. intros yb o _.
  unfold io_bind, io_lift, print.
  now rewrite build_line_value.
Qed.

Lemma first_channels_weaken (P Q : Z -> Prop) (img : PPMImage) :
  (forall v, P v -> Q v) -> first_channels P img -> first_channels Q img.
Proof.
  intros HPQ. unfold first_channels.
  apply Forall_impl. intros row. apply Forall_impl.
  intros px (v & rest & -> & Hv). eauto.
Qed.

Lemma well_formed_nonempty (img : PPMImage) :
  well_formed img -> first_channels (fun _ => True) img.
Proof.
  intros (_ & _ & _ & _ & H). unfold first_channels.
  eapply Forall_impl; [|exact H]. intros row. apply Forall_impl.
  intros [|v rest]; [discriminate|]. eauto.
Qed.

Lemma rendered_shape (img : PPMImage) (threshold : Z) :
  len (rendered img threshold) = Z.max 0 ((snd (size img) + BH - 1) / BH) /\
  Forall (fun l => len l = Z.max 0 ((fst (size img) + BW - 1) / BW))
         (rendered img threshold).
Proof.
  unfold rendered, len. split.
  - rewrite length_map, range_length. lia.
  - apply Forall_forall. intros l Hl.
    apply in_map_iff in Hl. destruct Hl as (yb & <- & _).
    rewrite length_map, range_length. lia.
Qed.

Lemma rendered_char_at (img : PPMImage) (threshold yb xb : Z) :
  0 <= yb < (snd (size img) + BH - 1) / BH ->
  0 <= xb < (fst (size img) + BW - 1) / BW ->
  char_at (rendered img threshold) yb xb
  = Ok (block_value
          (fun x y => dark img threshold (xb * BW + x) (yb * BH + y))).
Proof.
  intros Hy Hx. unfold char_at, rendered.
  rewrite py_index_nonneg by lia.
  rewrite nth_error_map, range_nth by lia. simpl.
  rewrite py_index_nonneg by lia.
  rewrite nth_error_map, range_nth by lia. simpl.
  now rewrite !Z2Nat.id by lia.
Qed.

Lemma rendered_chars (img : PPMImage) (threshold : Z) (P : Z -> Prop) :
  (forall yb xb,
      0 <= yb < (snd (size img) + BH - 1) / BH ->
      0 <= xb < (fst (size img) + BW - 1) / BW ->
      P (block_value
           (fun x y => dark img threshold (xb * BW + x) (yb * BH + y)))) ->
  Forall (Forall P) (rendered img threshold).
Proof.
  intros H. unfold rendered.
  apply Forall_forall. intros l Hl.
  apply in_map_iff in Hl. destruct Hl as (yb & <- & Hyb).
  apply Forall_forall. intros c Hc.
  apply in_map_iff in Hc. destruct Hc as (xb & <- & Hxb).
  apply range_In in Hyb. apply range_In in Hxb. now apply H.
Qed.

Lemma dark_outside (img : PPMImage) (threshold px py : Z) :
  well_formed img -> 0 <= px -> 0 <= py ->
  fst (size img) <= px \/ snd (size img) <= py ->
  dark img threshold px py = false.
Proof.
  intros (Hw & Hh & Hlen & Hrows & _) Hx Hy Hout.
  unfold dark, getpixel; simpl.
  destruct (Z_le_dec (snd (size img)) py) as [Hpy|Hpy].
  - rewrite py_index_out by lia. reflexivity.
  - destruct (py_index_in_range (_grid img) py) as (row & -> & Hin); [lia|].
    rewrite Forall_forall in Hrows. specialize (Hrows row Hin). simpl.
    rewrite py_index_out by lia. reflexivity.
Qed.

Lemma dark_inside (P : Z -> Prop) (img : PPMImage) (threshold px py : Z) :
  well_formed img -> first_channels P img ->
  0 <= px < fst (size img) -> 0 <= py < snd (size img) ->
  exists v rest,
    getpixel img (px, py) = Ok (v :: rest) /\ P v /\
    dark img threshold px py = (v <? threshold).
Proof.
  intros (Hw & Hh & Hlen & Hrows & _) HP Hx Hy.
  assert (exists px', getpixel img (px, py) = Ok px') as (px' & E).
  { unfold getpixel; simpl.
    destruct (py_index_in_range (_grid img) py) as (row & -> & Hin); [lia|].
    rewrite Forall_forall in Hrows. specialize (Hrows row Hin). simpl.
    destruct (py_index_in_range row px) as (p & -> & _); [lia|]. eauto. }
  destruct (first_channels_getpixel P img _ _ HP E) as (v & rest & -> & Hv).
  exists v, rest. unfold dark. rewrite E. auto.
Qed.

Lemma dark_light (img : PPMImage) (threshold px py : Z) :
  first_channels (fun v => threshold <= v) img ->
  dark img threshold px py = false.
Proof.
  intros H. unfold dark.
  destruct (getpixel img (px, py)) as [val|e] eqn:E; [|reflexivity].
  destruct (first_channels_getpixel _ _ _ _ H E) as (v & rest & -> & Hv).
  lia.
Qed.

(** C7: when every pixel of the grid has a first channel at or above the
    threshold, [print_image] does not raise and prints [ceil(h/4)] lines of
    [ceil(w/2)] characters for the recorded size [(w, h)] (none for a
    dimension of zero or less), every one of them the blank braille
    codepoint 0x2800. *)
Theorem all_light_renders_blank (img : PPMImage) (threshold : Z)
  (out : stdout) :
  first_channels (fun v => threshold <= v) img ->
  exists text,
    print_image img threshold out = (Ok tt, out ++ text) /\
    Forall (Forall (fun c => c = 0x2800)) text /\
    Z.max 0 (snd (size img)) <= 4 * len text < Z.max 0 (snd (size img)) + 4 /\
    Forall (fun l => Z.max 0 (fst (size img)) <= 2 * len l
                     < Z.max 0 (fst (size img)) + 2) text.
Proof.
  intros H. exists (rendered img threshold). split; [|split].
  - apply print_image_rendered.
    eapply first_channels_weaken; [|exact H]. trivial.
  - apply rendered_chars. intros yb xb _ _.
    rewrite <- block_value_none. apply block_value_ext.
    intros x y _ _. now apply dark_light.
  - pose proof (rendered_shape img threshold) as (Hlen & Hrows).
    unfold BW, BH in *. split.
    + rewrite Hlen. Z.to_euclidean_division_equations; lia.
    + eapply Forall_impl; [|exact Hrows]. cbv beta. intros l ->.
      Z.to_euclidean_division_equations; lia.
Qed.

Lemma all_light_renders_blank_witness :
  exists text,
    print_image img_3x5_white 128 [] = (Ok tt, [] ++ text) /\
    Forall (Forall (fun c => c = 0x2800)) text /\
    Z.max 0 (snd (size img_3x5_white)) <= 4 * len text
    < Z.max 0 (snd (size img_3x5_white)) + 4 /\
    Forall (fun l => Z.max 0 (fst (size img_3x5_white)) <= 2 * len l
                     < Z.max 0 (fst (size img_3x5_white)) + 2) text.
Proof.
  apply (all_light_renders_blank img_3x5_white 128 []).
  unfold first_channels. simpl.
  repeat (constructor;
          try (exists 255, [255; 255]; split; [reflexivity|lia])).
Defined.

(** C6, as amended: on a grid that satisfies the invariant, whose width
    [w] is a multiple of 2 and whose height [h] is a multiple of 4, and in
    which every pixel's first channel is below the threshold, [print_image]
    does not raise and prints [h/4] lines of [w/2] characters, every one of
    them 0x28FF. *)
Theorem all_dark_renders_full (img : PPMImage) (threshold : Z)
  (out : stdout) :
  well_formed img ->
  fst (size img) mod 2 = 0 -> snd (size img) mod 4 = 0 ->
  first_channels (fun v => v < threshold) img ->
  exists text,
    print_image img threshold out = (Ok tt, out ++ text) /\
    Forall (Forall (fun c => c = 0x28FF)) text /\
    len text = snd (size img) / 4 /\
    Forall (fun l => len l = fst (size img) / 2) text.
Proof.
  intros Hwf Hw Hh H. exists (rendered img threshold). split; [|split].
  - apply print_image_rendered. now apply well_formed_nonempty.
  - apply rendered_chars. unfold BW, BH. intros yb xb Hyb Hxb.
    rewrite <- block_value_all. apply block_value_ext.
    unfold BW, BH. intros x y Hx Hy.
    destruct (dark_inside _ img threshold (xb * 2 + x) (yb * 4 + y) Hwf H)
      as (v & rest & _ & Hv & ->);
      [Z.to_euclidean_division_equations; lia
      |Z.to_euclidean_division_equations; lia|].
    now apply Z.ltb_lt.
  - pose proof (rendered_shape img threshold) as (Hlen & Hrows).
    destruct Hwf as (Hw0 & Hh0 & _).
    unfold BW, BH in *. split.
    + rewrite Hlen. Z.to_euclidean_division_equations; lia.
    + eapply Forall_impl; [|exact Hrows]. cbv beta. intros l ->.
      Z.to_euclidean_division_equations; lia.
Qed.

Lemma all_dark_renders_full_witness :
  exists text,
    print_image img_2x4_black 128 [] = (Ok tt, [] ++ text) /\
    Forall (Forall (fun c => c = 0x28FF)) text /\
    len text = snd (size img_2x4_black) / 4 /\
    Forall (fun l => len l = fst (size img_2x4_black) / 2) text.
Proof.
  apply (all_dark_renders_full img_2x4_black 128 []);
    try reflexivity.
  - unfold well_formed. simpl. repeat split; try lia; repeat constructor.
  - unfold first_channels. simpl.
    repeat (constructor;
            try (exists 0, [0; 0]; split; [reflexivity|lia])).
Defined.

(** C6 as stated fails: the 1x1 grid whose pixel is black satisfies the
    invariant and has every first channel below 128, and is printed as the
    one character 0x2801. *)
Lemma lone_dark_pixel_not_full :
  well_formed img_1x1_black /\
  first_channels (fun v => v < 128) img_1x1_black /\
  print_image img_1x1_black 128 [] = (Ok tt, [[0x2801]]) /\
  0x2801 <> 0x28FF.
Proof.
  split; [|split; [|split]].
  - unfold well_formed. simpl. repeat split; try lia; repeat constructor.
  - unfold first_channels. simpl.
    repeat (constructor;
            try (exists 0, [0; 0]; split; [reflexivity|lia])).
  - reflexivity.
  - discriminate.
Qed.

(** A bit of a printed character, on a grid that satisfies the invariant:
    it is set exactly when the sub-pixel is inside the grid and its first
    channel is below the threshold. *)
Lemma rendered_bit (img : PPMImage) (threshold yb xb y x bit : Z) :
  well_formed img ->
  0 <= yb < (snd (size img) + BH - 1) / BH ->
  0 <= xb < (fst (size img) + BW - 1) / BW ->
  0 <= y < BH -> 0 <= x < BW -> bit_at y x = Ok bit ->
  exists ch,
    char_at (rendered img threshold) yb xb = Ok ch /\
    Z.land ch bit
    = if dark img threshold (xb * BW + x) (yb * BH + y) then bit else 0.
Proof.
  intros Hwf Hyb Hxb Hy Hx Hbit.
  rewrite rendered_char_at by assumption.
  eexists. split; [reflexivity|].
  exact (proj2 (block_value_bits
                  (fun x y => dark img threshold (xb * BW + x) (yb * BH + y))
                  y x bit Hy Hx Hbit)).
Qed.

(** C8: a grid that satisfies the invariant and whose width is not a
    multiple of 2 or whose height is not a multiple of 4 is printed without
    an exception, as [ceil(h/4)] lines of [ceil(w/2)] characters; in the
    character of a block, the bit of a sub-pixel that falls outside the
    grid is not set. *)
Theorem ragged_grid_renders (img : PPMImage) (threshold w h : Z)
  (out : stdout) :
  well_formed img ->
  size img = (w, h) ->
  w mod 2 <> 0 \/ h mod 4 <> 0 ->
  exists text nx ny,
    print_image img threshold out = (Ok tt, out ++ text) /\
    (h <= 4 * ny < h + 4) /\ (w <= 2 * nx < w + 2) /\
    len text = ny /\ Forall (fun l => len l = nx) text /\
    forall yb xb y x bit,
      0 <= yb < ny -> 0 <= xb < nx -> 0 <= y < 4 -> 0 <= x < 2 ->
      bit_at y x = Ok bit ->
      w <= xb * 2 + x \/ h <= yb * 4 + y ->
      exists ch, char_at text yb xb = Ok ch /\ Z.land ch bit = 0.
Proof.
  intros Hwf Hsize _.
  pose proof Hwf as (Hw & Hh & _).
  pose proof (rendered_shape img threshold) as (Hlen & Hrows).
  rewrite Hsize in *. cbn [fst snd] in *. unfold BW, BH in *.
  exists (rendered img threshold), ((w + 2 - 1) / 2), ((h + 4 - 1) / 4).
  split; [apply print_image_rendered; now apply well_formed_nonempty|].
  split; [Z.to_euclidean_division_equations; lia|].
  split; [Z.to_euclidean_division_equations; lia|].
  assert (Hny : 0 <= (h + 4 - 1) / 4) by (apply Z.div_pos; lia).
  assert (Hnx : 0 <= (w + 2 - 1) / 2) by (apply Z.div_pos; lia).
  split; [lia|].
  split; [eapply Forall_impl; [|exact Hrows]; simpl; intros l ->; lia|].
  intros yb xb y x bit Hyb Hxb Hy Hx Hbit Hout.
  destruct (rendered_bit img threshold yb xb y x bit Hwf)
    as (ch & Hch & Hland);
    rewrite ?Hsize; cbn [fst snd]; unfold BW, BH; try assumption.
  exists ch. split; [assumption|].
  rewrite Hland. unfold BW, BH.
  rewrite dark_outside; try assumption; try lia.
  rewrite Hsize. cbn [fst snd]. lia.
Qed.

Lemma ragged_grid_renders_witness :
  exists text nx ny,
    print_image img_3x5_white 128 [] = (Ok tt, [] ++ text) /\
    (5 <= 4 * ny < 5 + 4) /\ (3 <= 2 * nx < 3 + 2) /\
    len text = ny /\ Forall (fun l => len l = nx) text /\
    forall yb xb y x bit,
      0 <= yb < ny -> 0 <= xb < nx -> 0 <= y < 4 -> 0 <= x < 2 ->
      bit_at y x = Ok bit ->
      3 <= xb * 2 + x \/ 5 <= yb * 4 + y ->
      exists ch, char_at text yb xb = Ok ch /\ Z.land ch bit = 0.
Proof.
  apply (ragged_grid_renders img_3x5_white 128 3 5 []).
  - unfold well_formed. simpl. repeat split; try lia; repeat constructor.
  - reflexivity.
  - left. discriminate.
Defined.


Lemma untrusted_url_rejected_witness :
  is_valid_faucet_url (fun _ => Ok (Some "signetfaucet.com"%string))
                      (fun _ => true)
                      "https://signetfaucet.com/claim" = Ok false /\
  exists m,
    submit_claim (fun _ => Ok (Some "signetfaucet.com"%string))
                 (fun _ => true) nat (fun _ _ => Ok 200%nat)
                 "https://signetfaucet.com/claim"
                 (mkForm "tb1qexample" "" "0.001" None) []
    = (Raise (SystemExit m), []).
Proof.
  apply (untrusted_url_rejected
           (fun _ => Ok (Some "signetfaucet.com"%string)) (fun _ => true)
           nat (fun _ _ => Ok 200%nat)
           "https://signetfaucet.com/claim" (Some "signetfaucet.com"%string)
           (mkForm "tb1qexample" "" "0.001" None) []).
  - reflexivity.
  - right. intros h [= <-]. simpl. intros [H|[H|[]]]; discriminate H.
Defined.

Lemma allow_list_exact_witness :
  exists h,
    (fun _ : string => Ok (Some "trusted-domain.com"%string))
      "https://trusted-domain.com/claim"%string = Ok (Some h) /\
    (h = "trusted-domain.com"%string \/
     h = "another-trusted-domain.com"%string).
Proof.
  apply (allow_list_exact
           (fun _ => Ok (Some "trusted-domain.com"%string)) (fun _ => true)
           "https://trusted-domain.com/claim").
  reflexivity.
Defined.

(** C3 as stated fails: the host of [https://TRUSTED-DOMAIN.COM/claim] is
    not, as written, an entry of the allow-list, yet [urlparse] reports it
    in lower case and the URL is accepted (with a [validators.domain] that
    accepts the name). *)
Lemma uppercase_host_accepted :
  urlparse_hostname_model "https://TRUSTED-DOMAIN.COM/claim"
  = Ok (Some "trusted-domain.com"%string) /\
  ~ In "TRUSTED-DOMAIN.COM"%string ALLOWED_DOMAINS /\
  is_valid_faucet_url urlparse_hostname_model (fun _ => true)
                      "https://TRUSTED-DOMAIN.COM/claim" = Ok true.
Proof.
  split; [reflexivity|]. split; [|reflexivity].
  simpl. intros [H|[H|[]]]; discriminate H.
Qed.

(* ================================================================= *)
(** * Further properties *)

(** ** The decoder: errors, shape, slack *)

(** X1: whatever the input, the only exceptions [PPMImage.__init__]
    raises are [ValueError], for a bad header line, and [OverflowError],
    for a size that does not fit 64 bits. *)
Theorem decode_raises_ValueError (f : bytes) (e : exn) :
  PPMImage_init f = Raise e ->
  (exists m, e = ValueError m) \/ e = OverflowError.
Proof.
  rewrite PPMImage_init_eq.
  destruct (negb (bytes_eqb (magic_line f) b_P6)); [intros [= <-]; eauto|].
  destruct (unpack2 (split SP (rstrip (dims_line f)))) as [wh|e'] eqn:E;
    simpl.
  - destruct (negb (bytes_eqb (depth_line f) b_255));
      [intros [= <-]; eauto|].
    destruct (read _ _) as [r|e'] eqn:Er; simpl; [discriminate|].
    intros [= <-]. right. now apply read_raises in Er.
  - intros [= <-]. left. eapply unpack2_raises; eauto.
Qed.

Lemma decode_raises_ValueError_witness :
  (exists m, ValueError (Msg "Invalid ppm format: header") = ValueError m) \/
  ValueError (Msg "Invalid ppm format: header") = OverflowError.
Proof.
  apply (decode_raises_ValueError []). reflexivity.
Defined.

(** X2: the grid of every decoded image has [max 0 height] rows of
    [max 0 width] pixels; a pixel has at most three components, each a byte
    value. *)
Theorem decoded_shape (f : bytes) (img : PPMImage) :
  PPMImage_init f = Ok img ->
  len (_grid img) = Z.max 0 (snd (size img)) /\
  Forall (fun row => len row = Z.max 0 (fst (size img))) (_grid img) /\
  Forall (Forall (fun px : pixel =>
                    len px <= 3 /\ Forall (fun c => 0 <= c < 256) px))
         (_grid img).
Proof.
  intros H. destruct (decoded_grid f img H) as (data & Hg). rewrite Hg.
  split; [apply grid_of_length|]. split; [apply grid_of_rows|].
  unfold grid_of. apply Forall_forall. intros row Hrow.
  apply in_map_iff in Hrow. destruct Hrow as (y & <- & Hy).
  apply Forall_forall. intros px Hpx.
  apply in_map_iff in Hpx. destruct Hpx as (x & <- & Hx).
  apply range_In in Hy. apply range_In in Hx. split.
  - unfold len, tuple. rewrite length_map, py_slice_length by nia. lia.
  - unfold tuple. apply Forall_forall. intros c Hc.
    apply in_map_iff in Hc. destruct Hc as (b & <- & _).
    apply byte_val_range.
Qed.

Lemma decoded_shape_witness :
  len (_grid img_1x1_black) = Z.max 0 (snd (size img_1x1_black)) /\
  Forall (fun row => len row = Z.max 0 (fst (size img_1x1_black)))
         (_grid img_1x1_black) /\
  Forall (Forall (fun px : pixel =>
                    len px <= 3 /\ Forall (fun c => 0 <= c < 256) px))
         (_grid img_1x1_black).
Proof.
  apply (decoded_shape b_1x1_black img_1x1_black). reflexivity.
Defined.

Lemma unpack2_wrong_count (tokens : list bytes) :
  List.length tokens <> 2%nat -> exists m, unpack2 tokens = Raise (ValueError m).
Proof.
  intros H.
  destruct (unpack2 tokens) as [wh|e] eqn:E.
  - exfalso. unfold unpack2 in E.
    destruct tokens as [|t1 [|t2 [|t3 ts]]]; simpl in *; try congruence;
      repeat (match type of E with
              | context [int ?t] => destruct (int t); simpl in E
              end); discriminate.
  - apply unpack2_raises in E. destruct E as (m & ->). eauto.
Qed.

(** X3: after the magic line, a dimension line that does not split at
    single spaces into exactly two tokens makes [__init__] fail with
    [ValueError], whatever the rest of the input. *)
Theorem bad_token_count_fails (f : bytes) :
  magic_line f = b_P6 ->
  List.length (split SP (rstrip (dims_line f))) <> 2%nat ->
  exists m, PPMImage_init f = Raise (ValueError m).
Proof.
  intros Hm Hn. rewrite PPMImage_init_eq.
  apply bytes_eqb_eq in Hm. rewrite Hm. simpl.
  destruct (unpack2_wrong_count _ Hn) as (m & ->). simpl. eauto.
Qed.

Lemma bad_token_count_fails_witness :
  exists m,
    PPMImage_init (b_P6 ++ ["2"; " "; " "; "1"; x0a] ++ b_255)%byte
    = Raise (ValueError m).
Proof.
  apply (bad_token_count_fails (b_P6 ++ ["2"; " "; " "; "1"; x0a] ++ b_255)%byte).
  - reflexivity.
  - discriminate.
Defined.

Lemma py_index_wrap {A} (l : list A) (i : Z) :
  0 <= i < len l -> py_index l (i - len l) = py_index l i.
Proof.
  intros H. unfold py_index.
  destruct (i - len l <? 0) eqn:E1; [|lia].
  destruct (i <? 0) eqn:E2; [lia|].
  now replace (i - len l + len l) with i by ring.
Qed.

(** X4: on a decoded grid of width [w] and height [h], a position
    [(x, y)] inside the grid is also reached as [(x - w, y - h)],
    [(x - w, y)] and [(x, y - h)]: negative coordinates wrap around. *)
Theorem getpixel_negative_wraps (f : bytes) (img : PPMImage) (w h x y : Z) :
  PPMImage_init f = Ok img ->
  size img = (w, h) ->
  0 <= x < w -> 0 <= y < h ->
  exists px,
    getpixel img (x, y) = Ok px /\
    getpixel img (x - w, y) = Ok px /\
    getpixel img (x, y - h) = Ok px /\
    getpixel img (x - w, y - h) = Ok px.
Proof.
  intros Hdec Hsize Hx Hy.
  destruct (decoded_grid f img Hdec) as (data & Hgrid).
  pose proof (grid_of_length data (fst (size img)) (snd (size img))) as Hlen.
  pose proof (grid_of_rows data (fst (size img)) (snd (size img))) as Hrows.
  rewrite <- Hgrid in Hlen, Hrows. clear Hgrid.
  rewrite Hsize in *. cbn [fst snd] in *.
  assert (Hh : len (_grid img) = h) by lia.
  unfold getpixel. cbn [fst snd].
  rewrite <- Hh, py_index_wrap by lia.
  destruct (py_index_in_range (_grid img) y) as (row & -> & Hin); [lia|].
  simpl. rewrite Forall_forall in Hrows. specialize (Hrows row Hin).
  assert (Hw : len row = w) by lia.
  rewrite <- Hw, py_index_wrap by lia.
  destruct (py_index_in_range row x) as (px & -> & _); [lia|].
  exists px. auto.
Qed.

Lemma getpixel_negative_wraps_witness :
  exists px,
    getpixel img_1x1_black (0, 0) = Ok px /\
    getpixel img_1x1_black (0 - 1, 0) = Ok px /\
    getpixel img_1x1_black (0, 0 - 1) = Ok px /\
    getpixel img_1x1_black (0 - 1, 0 - 1) = Ok px.
Proof.
  apply (getpixel_negative_wraps b_1x1_black img_1x1_black 1 1 0 0);
    try reflexivity; lia.
Defined.

(** X5: bytes that follow the [width*height*3] bytes of pixel data are
    ignored: the decoded image is the same with and without them. *)
Theorem trailing_bytes_ignored (tw th data extra : bytes) :
  tw <> [] -> th <> [] ->
  Forall (fun b => is_digit b = true) tw ->
  Forall (fun b => is_digit b = true) th ->
  len data = decimal tw * decimal th * 3 ->
  PPMImage_init (b_P6 ++ (tw ++ SP :: th) ++ NL :: b_255 ++ data ++ extra)
  = PPMImage_init (b_P6 ++ (tw ++ SP :: th) ++ NL :: b_255 ++ data).
Proof.
  intros Hnw Hnh Hdw Hdh Hlen.
  rewrite !digits_header_eq by assumption.
  rewrite !int_digit_string_outcome by assumption.
  destruct (MAX_STR_DIGITS <? List.length tw)%nat; [reflexivity|].
  destruct (MAX_STR_DIGITS <? List.length th)%nat; [reflexivity|].
  cbn [rbind].
  unfold read.
  destruct (negb (fits_ssize_t (decimal tw * decimal th * 3)));
    [reflexivity|].
  unfold len in *.
  destruct (decimal tw * decimal th * 3 <? 0) eqn:E; [lia|]. cbn [rbind fst].
  rewrite firstn_app.
  replace (Z.to_nat (decimal tw * decimal th * 3) - List.length data)%nat
    with 0%nat by lia.
  rewrite firstn_O, app_nil_r. reflexivity.
Qed.

Lemma trailing_bytes_ignored_witness :
  PPMImage_init (b_P6 ++ (["1"] ++ SP :: ["1"]) ++ NL :: b_255
                 ++ [x00; x00; x00] ++ [xff; xff])%byte
  = PPMImage_init (b_P6 ++ (["1"] ++ SP :: ["1"]) ++ NL :: b_255
                   ++ [x00; x00; x00])%byte.
Proof.
  apply (trailing_bytes_ignored ["1"]%byte ["1"]%byte
           [x00; x00; x00]%byte [xff; xff]%byte);
    try discriminate; try reflexivity; repeat constructor.
Defined.

(** ** The renderer: what is printed on any grid *)

Lemma braille_lor (ch bit : Z) :
  ch / 256 = 40 -> 0 <= bit < 256 -> Z.lor ch bit / 256 = 40.
Proof.
  intros Hch Hbit.
  change 256 with (2 ^ 8) in *.
  rewrite <- Z.shiftr_div_pow2 in * by lia.
  rewrite Z.shiftr_lor, Hch.
  rewrite (Z.shiftr_div_pow2 bit) by lia.
  rewrite Z.div_small by lia. reflexivity.
Qed.

Lemma bit_table_range (y x bit : Z) : bit_at y x = Ok bit -> 0 <= bit < 256.
Proof.
  unfold bit_at.
  destruct (py_index BIT_PER_PIXEL y) as [row|e] eqn:Er; simpl; [|discriminate].
  intros Hb. apply py_index_Ok_In in Er. apply py_index_Ok_In in Hb.
  simpl in Er.
  repeat (destruct Er as [<-|Er];
          [simpl in Hb; repeat (destruct Hb as [<-|Hb]; [lia|]);
           contradiction|]).
  contradiction.
Qed.

Lemma for_each_inv {A St} (I : St -> Prop) (E : exn -> Prop)
  (xs : list A) (body : St -> A -> res St) (s : St) :
  I s ->
  (forall s' x, I s' ->
     match body s' x with Ok s'' => I s'' | Raise e => E e end) ->
  match for_each xs body s with Ok s' => I s' | Raise e => E e end.
Proof.
  intros Hs Hbody. revert s Hs.
  induction xs as [|x xs IH]; intros s Hs; simpl; [assumption|].
  specialize (Hbody s x Hs).
  destruct (body s x) as [s'|e]; simpl; [now apply IH|assumption].
Qed.

Lemma subpixel_inv (img : PPMImage) (threshold xb yb y ch x : Z) :
  ch / 256 = 40 ->
  match subpixel img threshold xb yb y ch x with
  | Ok ch' => ch' / 256 = 40
  | Raise e => e = IndexError
  end.
Proof.
  intros Hch. unfold subpixel.
  destruct (getpixel img (xb * BW + x, yb * BH + y)) as [val|e] eqn:E.
  - destruct (py_index val 0) as [v0|e] eqn:Ev; simpl;
      [|eapply py_index_raises; eauto].
    destruct (v0 <? threshold); [|assumption].
    destruct (bit_at y x) as [bit|e] eqn:Eb.
    + pose proof (bit_table_range y x bit Eb) as Hbit.
      unfold bit_at in Eb.
      destruct (py_index BIT_PER_PIXEL y) as [row|e]; simpl in *;
        [|discriminate].
      rewrite Eb. now apply braille_lor.
    + unfold bit_at in Eb.
      destruct (py_index BIT_PER_PIXEL y) as [row|e'] eqn:Er; simpl in *.
      * rewrite Eb. eapply py_index_raises; eauto.
      * eapply py_index_raises; eauto.
  - apply getpixel_raises in E. subst e. assumption.
Qed.

Lemma block_char_inv (img : PPMImage) (threshold yb xb : Z) :
  match block_char img threshold yb xb with
  | Ok ch => ch / 256 = 40
  | Raise e => e = IndexError
  end.
Proof.
  unfold block_char.
  apply (for_each_inv (fun ch => ch / 256 = 40) (fun e => e = IndexError));
    [reflexivity|].
  intros ch y Hch.
  apply (for_each_inv (fun ch => ch / 256 = 40) (fun e => e = IndexError));
    [assumption|].
  intros ch' x Hch'. now apply subpixel_inv.
Qed.

Lemma build_line_inv (img : PPMImage) (threshold x_blocks yb : Z) :
  match build_line img threshold x_blocks yb with
  | Ok l => Forall (fun c => 0x2800 <= c <= 0x28FF) l
  | Raise e => e = IndexError
  end.
Proof.
  unfold build_line.
  apply (for_each_inv (Forall (fun c => 0x2800 <= c <= 0x28FF))
                      (fun e => e = IndexError)); [constructor|].
  intros l xb Hl.
  pose proof (block_char_inv img threshold yb xb) as Hb.
  destruct (block_char img threshold yb xb) as [ch|e]; simpl; [|assumption].
  assert (Hr : 0x2800 <= ch <= 0x28FF)
    by (Z.to_euclidean_division_equations; lia).
  unfold chr.
  destruct (0 <=? ch) eqn:E1; [|lia].
  destruct (ch <? 1114112) eqn:E2; [|lia]. simpl.
  apply Forall_app. split; [assumption|]. now constructor.
Qed.

Lemma io_for_inv {A} (P : line -> Prop) (E : exn -> Prop)
  (xs : list A) (body : A -> IO unit) (out : stdout) :
  (forall x o, exists text,
      snd (body x o) = o ++ text /\ Forall P text /\
      match fst (body x o) with Ok _ => True | Raise e => E e end) ->
  exists text,
    snd (io_for xs body out) = out ++ text /\ Forall P text /\
    match fst (io_for xs body out) with Ok _ => True | Raise e => E e end.
Proof.
  intros Hbody. revert out.
  induction xs as [|x xs IH]; intros out; simpl.
  - exists []. unfold io_ret. simpl. now rewrite app_nil_r.
  - unfold io_bind.
    destruct (Hbody x out) as (text & Hout & HP & Hr).
    destruct (body x out) as [[u|e] o']; simpl in *.
    + subst o'. destruct (IH (out ++ text)) as (text' & Hout' & HP' & Hr').
      exists (text ++ text'). rewrite Hout', app_assoc.
      split; [reflexivity|]. split; [|assumption].
      apply Forall_app. now split.
    + exists text. auto.
Qed.

(** X6: on every image and threshold, [print_image] either returns or
    raises [IndexError], nothing else; what it has printed by then is
    appended to the output, and every character of it lies in the braille
    block 0x2800..0x28FF. *)
Theorem print_image_outcome (img : PPMImage) (threshold : Z) (out : stdout) :
  exists text,
    snd (print_image img threshold out) = out ++ text /\
    Forall (Forall (fun c => 0x2800 <= c <= 0x28FF)) text /\
    (fst (print_image img threshold out) = Ok tt \/
     fst (print_image img threshold out) = Raise IndexError).
Proof.
  unfold print_image. cbv zeta.
  destruct (io_for_inv (Forall (fun c => 0x2800 <= c <= 0x28FF))
              (fun e => e = IndexError)
              (range ((snd (size img) + BH - 1) / BH))
              (fun yb =>
                 line <~ io_lift (build_line img threshold
                                    ((fst (size img) + BW - 1) / BW) yb) ;;
                 print line) out) as (text & Hout & HP & Hr).
  - intros yb o. unfold io_bind, io_lift, print.
    pose proof (build_line_inv img threshold
                  ((fst (size img) + BW - 1) / BW) yb) as Hl.
    destruct (build_line img threshold _ yb) as [l|e]; simpl.
    + exists [l]. auto.
    + exists []. rewrite app_nil_r. auto.
  - exists text. split; [assumption|]. split; [assumption|].
    destruct (fst (io_for _ _ out)) as [[]|e]; [now left|right; now subst].
Qed.

(** X7: on a grid that satisfies the invariant, the bit of a sub-pixel that
    lies inside the grid is set in the printed character of its block
    exactly when the first channel of that pixel is below the threshold. *)
Theorem printed_bit_exact (img : PPMImage) (threshold : Z) (out : stdout)
  (yb xb y x bit : Z) :
  well_formed img ->
  0 <= yb -> 0 <= xb -> 0 <= y < 4 -> 0 <= x < 2 ->
  xb * 2 + x < fst (size img) -> yb * 4 + y < snd (size img) ->
  bit_at y x = Ok bit ->
  exists text ch v rest,
    print_image img threshold out = (Ok tt, out ++ text) /\
    char_at text yb xb = Ok ch /\
    getpixel img (xb * 2 + x, yb * 4 + y) = Ok (v :: rest) /\
    Z.land ch bit = if v <? threshold then bit else 0.
Proof.
  intros Hwf Hyb Hxb Hy Hx Hpx Hpy Hbit.
  destruct (rendered_bit img threshold yb xb y x bit Hwf)
    as (ch & Hch & Hland); unfold BW, BH;
    try assumption; try (Z.to_euclidean_division_equations; lia).
  destruct (dark_inside (fun _ => True) img threshold
              (xb * 2 + x) (yb * 4 + y) Hwf (well_formed_nonempty img Hwf))
    as (v & rest & Hget & _ & Hdark); [lia|lia|].
  exists (rendered img threshold), ch, v, rest.
  split; [apply print_image_rendered; now apply well_formed_nonempty|].
  split; [assumption|]. split; [assumption|].
  unfold BW, BH in Hland. now rewrite Hland, Hdark.
Qed.

Lemma printed_bit_exact_witness :
  exists text ch v rest,
    print_image img_1x1_black 128 [] = (Ok tt, [] ++ text) /\
    char_at text 0 0 = Ok ch /\
    getpixel img_1x1_black (0 * 2 + 0, 0 * 4 + 0) = Ok (v :: rest) /\
    Z.land ch 1 = if v <? 128 then 1 else 0.
Proof.
  apply (printed_bit_exact img_1x1_black 128 [] 0 0 0 0 1);
    try reflexivity; try lia.
  unfold well_formed. simpl. repeat split; try lia; repeat constructor.
Defined.

Lemma dark_monotone (img : PPMImage) (t t' px py : Z) :
  t <= t' -> dark img t px py = true -> dark img t' px py = true.
Proof.
  unfold dark. intros Ht.
  destruct (getpixel img (px, py)) as [[|v rest]|e]; try discriminate.
  intros H. apply Z.ltb_lt in H. apply Z.ltb_lt. lia.
Qed.

(** X8: raising the threshold never clears a dot: on a grid that
    satisfies the invariant, a bit that is set in the character of a block
    at threshold [t] is set in it at every threshold [t' >= t]. *)
Theorem threshold_monotone (img : PPMImage) (t t' : Z) (out : stdout)
  (yb xb y x bit : Z) :
  well_formed img -> t <= t' ->
  0 <= yb -> yb * 4 < snd (size img) ->
  0 <= xb -> xb * 2 < fst (size img) ->
  0 <= y < 4 -> 0 <= x < 2 -> bit_at y x = Ok bit ->
  exists text text' ch ch',
    print_image img t out = (Ok tt, out ++ text) /\
    print_image img t' out = (Ok tt, out ++ text') /\
    char_at text yb xb = Ok ch /\ char_at text' yb xb = Ok ch' /\
    (Z.land ch bit = bit -> Z.land ch' bit = bit).
Proof.
  intros Hwf Ht Hyb Hyb' Hxb Hxb' Hy Hx Hbit.
  destruct (rendered_bit img t yb xb y x bit Hwf) as (ch & Hch & Hland);
    unfold BW, BH; try assumption;
    try (Z.to_euclidean_division_equations; lia).
  destruct (rendered_bit img t' yb xb y x bit Hwf) as (ch' & Hch' & Hland');
    unfold BW, BH; try assumption;
    try (Z.to_euclidean_division_equations; lia).
  exists (rendered img t), (rendered img t'), ch, ch'.
  pose proof (well_formed_nonempty img Hwf) as Hne.
  repeat (split; [first [now apply print_image_rendered | assumption]|]).
  rewrite Hland, Hland'.
  destruct (dark img t (xb * BW + x) (yb * BH + y)) eqn:Ed.
  - now rewrite (dark_monotone img t t' _ _ Ht Ed).
  - intros <-. now destruct (dark img t' _ _).
Qed.

Lemma threshold_monotone_witness :
  exists text text' ch ch',
    print_image img_1x1_black 1 [] = (Ok tt, [] ++ text) /\
    print_image img_1x1_black 128 [] = (Ok tt, [] ++ text') /\
    char_at text 0 0 = Ok ch /\ char_at text' 0 0 = Ok ch' /\
    (Z.land ch 1 = 1 -> Z.land ch' 1 = 1).
Proof.
  apply (threshold_monotone img_1x1_black 1 128 [] 0 0 0 0 1);
    try reflexivity; try lia.
  unfold well_formed. simpl. repeat split; try lia; repeat constructor.
Defined.

(** X9: an image whose recorded height is zero or negative prints
    nothing, and one whose recorded width is zero or negative prints only
    empty lines; in both cases [print_image] returns without looking at the
    grid. *)
Theorem degenerate_size_prints_blank (img : PPMImage) (threshold : Z)
  (out : stdout) :
  fst (size img) <= 0 \/ snd (size img) <= 0 ->
  exists n,
    print_image img threshold out = (Ok tt, out ++ repeat [] n) /\
    (snd (size img) <= 0 -> n = 0%nat).
Proof.
  intros H. unfold print_image. cbv zeta. unfold BW, BH.
  destruct (Z_le_dec (snd (size img)) 0) as [Hh|Hh].
  - exists 0%nat. split; [|reflexivity].
    rewrite (range_nonpos ((snd (size img) + 4 - 1) / 4))
      by (Z.to_euclidean_division_equations; lia).
    simpl. unfold io_ret. now rewrite app_nil_r.
  - destruct H as [Hw|Hh']; [|contradiction].
    exists (List.length (range ((snd (size img) + 4 - 1) / 4))).
    split; [|lia].
    rewrite (io_for_print _ _ (fun _ => [])).
    + f_equal. f_equal.
      induction (range ((snd (size img) + 4 - 1) / 4)) as [|a l IH];
        simpl; [reflexivity|now rewrite IH].
    + intros yb o _. unfold io_bind, io_lift, print, build_line.
      rewrite (range_nonpos ((fst (size img) + 2 - 1) / 2))
        by (Z.to_euclidean_division_equations; lia).
      reflexivity.
Qed.

Lemma degenerate_size_prints_blank_witness :
  exists n,
    print_image (mkPPMImage (0, 5) [[]; []; []; []; []]) 128 []
    = (Ok tt, [] ++ repeat [] n) /\
    (snd (size (mkPPMImage (0, 5) [[]; []; []; []; []])) <= 0 -> n = 0%nat).
Proof.
  apply (degenerate_size_prints_blank
           (mkPPMImage (0, 5) [[]; []; []; []; []]) 128 []).
  left. simpl. lia.
Defined.

(** ** Empty pixels *)

Lemma for_each_Ok_In {A St} (xs : list A) (body : St -> A -> res St)
  (s s' : St) (x : A) :
  for_each xs body s = Ok s' -> In x xs ->
  exists s1 s2, body s1 x = Ok s2.
Proof.
  revert s. induction xs as [|a xs IH]; intros s H Hin; [contradiction|].
  simpl in H. destruct (body s a) as [s1|e] eqn:E; simpl in H; [|discriminate].
  destruct Hin as [<-|Hin]; [eauto|]. eapply IH; eauto.
Qed.

Lemma block_char_empty_pixel (img : PPMImage) (threshold yb xb y x : Z) :
  0 <= y < BH -> 0 <= x < BW ->
  getpixel img (xb * BW + x, yb * BH + y) = Ok [] ->
  block_char img threshold yb xb = Raise IndexError.
Proof.
  intros Hy Hx Hget.
  pose proof (block_char_inv img threshold yb xb) as Hinv.
  destruct (block_char img threshold yb xb) as [ch|e] eqn:E;
    [|now subst e].
  exfalso. unfold block_char in E.
  destruct (for_each_Ok_In _ _ _ _ y E (proj2 (range_In BH y) Hy))
    as (c1 & c2 & E').
  destruct (for_each_Ok_In _ _ _ _ x E' (proj2 (range_In BW x) Hx))
    as (c3 & c4 & E'').
  unfold subpixel in E''. rewrite Hget in E''. discriminate.
Qed.

Lemma build_line_empty_pixel (img : PPMImage) (threshold x_blocks : Z)
  (px py : Z) :
  0 <= px -> px / 2 < x_blocks -> 0 <= py ->
  getpixel img (px, py) = Ok [] ->
  build_line img threshold x_blocks (py / 4) = Raise IndexError.
Proof.
  intros Hpx Hxb Hpy Hget.
  pose proof (build_line_inv img threshold x_blocks (py / 4)) as Hinv.
  destruct (build_line img threshold x_blocks (py / 4)) as [l|e] eqn:El;
    [|now subst e].
  exfalso. unfold build_line in El.
  assert (Hin : In (px / 2) (range x_blocks))
    by (apply range_In; Z.to_euclidean_division_equations; lia).
  destruct (for_each_Ok_In _ _ _ _ _ El Hin) as (l1 & l2 & Eb).
  rewrite (block_char_empty_pixel img threshold (py / 4) (px / 2)
             (py mod 4) (px mod 2)) in Eb.
  - discriminate.
  - unfold BH. Z.to_euclidean_division_equations; lia.
  - unfold BW. Z.to_euclidean_division_equations; lia.
  - replace (px / 2 * BW + px mod 2) with px
      by (unfold BW; Z.to_euclidean_division_equations; lia).
    replace (py / 4 * BH + py mod 4) with py
      by (unfold BH; Z.to_euclidean_division_equations; lia).
    assumption.
Qed.

Lemma io_for_raises {A} (xs : list A) (body : A -> IO unit) (out : stdout)
  (x : A) (e : exn) :
  In x xs ->
  (forall o, fst (body x o) = Raise e) ->
  (forall x' o e', fst (body x' o) = Raise e' -> e' = e) ->
  fst (io_for xs body out) = Raise e.
Proof.
  intros Hin Hx Hall. revert out.
  induction xs as [|a xs IH]; intros out; [contradiction|].
  simpl. unfold io_bind.
  destruct (body a out) as [[u|e'] o'] eqn:E.
  - destruct Hin as [<-|Hin].
    + specialize (Hx out). rewrite E in Hx. discriminate.
    + now apply IH.
  - simpl. f_equal. apply (Hall a out). now rewrite E.
Qed.

Lemma print_image_empty_pixel (img : PPMImage) (threshold : Z)
  (out : stdout) (px py : Z) :
  0 <= px < fst (size img) -> 0 <= py < snd (size img) ->
  getpixel img (px, py) = Ok [] ->
  fst (print_image img threshold out) = Raise IndexError.
Proof.
  intros Hpx Hpy Hget. unfold print_image. cbv zeta.
  apply (io_for_raises _ _ out (py / 4)).
  - apply range_In. unfold BH. Z.to_euclidean_division_equations; lia.
  - intros o. unfold io_bind, io_lift.
    rewrite (build_line_empty_pixel img threshold _ px py);
      [reflexivity|lia| |lia|assumption].
    unfold BW. Z.to_euclidean_division_equations; lia.
  - intros yb o e'. unfold io_bind, io_lift, print.
    pose proof (build_line_inv img threshold
                  ((fst (size img) + BW - 1) / BW) yb) as Hinv.
    destruct (build_line img threshold _ yb) as [l|e]; simpl;
      [discriminate|].
    intros [= <-]. assumption.
Qed.

(** X10: a pixel without components at a position inside the recorded
    size makes [print_image] end in [IndexError]: the lookup of the first
    channel is not covered by the [try]. *)
Theorem empty_pixel_raises (img : PPMImage) (threshold : Z) (out : stdout)
  (px py : Z) :
  0 <= px < fst (size img) -> 0 <= py < snd (size img) ->
  getpixel img (px, py) = Ok [] ->
  fst (print_image img threshold out) = Raise IndexError.
Proof.
  intros Hpx Hpy Hget.
  now apply (print_image_empty_pixel img threshold out px py).
Qed.

Lemma empty_pixel_raises_witness :
  fst (print_image (mkPPMImage (1, 1) [[[]]]) 128 []) = Raise IndexError.
Proof.
  apply (empty_pixel_raises (mkPPMImage (1, 1) [[[]]]) 128 [] 0 0);
    simpl; try lia; reflexivity.
Defined.

(** X11: a file with a header of positive dimensions [w], [h] (numbers of
    at most 4300 digits, [w*h*3 < 2^63]) and at most [3*w*h - 3] bytes of
    pixel data is accepted by the decoder, and printing the decoded image
    ends in [IndexError]. *)
Theorem truncated_file_breaks_rendering (tw th data : bytes)
  (threshold : Z) (out : stdout) :
  tw <> [] -> th <> [] ->
  Forall (fun b => is_digit b = true) tw ->
  Forall (fun b => is_digit b = true) th ->
  (List.length tw <= MAX_STR_DIGITS)%nat ->
  (List.length th <= MAX_STR_DIGITS)%nat ->
  0 < decimal tw -> 0 < decimal th ->
  decimal tw * decimal th * 3 < 2 ^ 63 ->
  len data <= 3 * decimal tw * decimal th - 3 ->
  exists img,
    PPMImage_init (b_P6 ++ (tw ++ SP :: th) ++ NL :: b_255 ++ data) = Ok img /\
    size img = (decimal tw, decimal th) /\
    fst (print_image img threshold out) = Raise IndexError.
Proof.
  intros Hnw Hnh Hdw Hdh Hlw Hlh Hw Hh Hfit Hlen.
  rewrite digits_header_init by (try assumption; nia).
  set (w := decimal tw) in *. set (h := decimal th) in *.
  eexists. split; [reflexivity|]. split; [reflexivity|].
  apply (print_image_empty_pixel _ threshold out (w - 1) (h - 1));
    cbn [size fst snd]; [lia|lia|].
  rewrite getpixel_grid_of by lia. f_equal.
  replace (w * 3 * (h - 1) + 3 * (w - 1 + 1)) with (w * h * 3) by ring.
  replace (w * 3 * (h - 1) + 3 * (w - 1)) with (w * h * 3 - 3) by ring.
  assert (0 <= w * h * 3 - 3) by nia.
  assert (Hl : List.length
                 (py_slice (firstn (Z.to_nat (w * h * 3)) data)
                           (w * h * 3 - 3) (w * h * 3)) = 0%nat).
  { rewrite py_slice_length by lia.
    unfold len in *. rewrite length_firstn. lia. }
  destruct (py_slice _ _ _); [reflexivity|discriminate].
Qed.

Lemma truncated_file_breaks_rendering_witness :
  exists img,
    PPMImage_init (b_P6 ++ (["1"] ++ SP :: ["1"]) ++ NL :: b_255 ++ [])%byte
    = Ok img /\
    size img = (decimal ["1"]%byte, decimal ["1"]%byte) /\
    fst (print_image img 128 []) = Raise IndexError.
Proof.
  apply (truncated_file_breaks_rendering ["1"]%byte ["1"]%byte [] 128 []);
    try discriminate; try reflexivity;
    try (unfold MAX_STR_DIGITS; simpl; lia); repeat constructor.
Defined.

(** X12: a complete file (header of positive dimensions [w], [h], numbers
    of at most 4300 digits, and exactly [w*h*3] bytes, [w*h*3 < 2^63])
    decodes and prints without exception, as [ny] lines of [nx] characters
    with [h <= 4*ny < h+4] and [w <= 2*nx < w+2]. *)
Theorem complete_file_renders (tw th data : bytes) (threshold : Z)
  (out : stdout) :
  tw <> [] -> th <> [] ->
  Forall (fun b => is_digit b = true) tw ->
  Forall (fun b => is_digit b = true) th ->
  (List.length tw <= MAX_STR_DIGITS)%nat ->
  (List.length th <= MAX_STR_DIGITS)%nat ->
  0 < decimal tw -> 0 < decimal th ->
  len data = decimal tw * decimal th * 3 ->
  decimal tw * decimal th * 3 < 2 ^ 63 ->
  exists img text nx ny,
    PPMImage_init (b_P6 ++ (tw ++ SP :: th) ++ NL :: b_255 ++ data) = Ok img /\
    print_image img threshold out = (Ok tt, out ++ text) /\
    decimal th <= 4 * ny < decimal th + 4 /\
    decimal tw <= 2 * nx < decimal tw + 2 /\
    len text = ny /\ Forall (fun l => len l = nx) text.
Proof.
  intros Hnw Hnh Hdw Hdh Hlw Hlh Hw Hh Hlen Hfit.
  rewrite digits_header_init by (try assumption; nia).
  set (w := decimal tw) in *. set (h := decimal th) in *.
  rewrite firstn_all2 by (unfold len in Hlen; lia).
  pose proof (grid_of_well_formed data w h) as Hwf.
  specialize (Hwf ltac:(lia) ltac:(lia) Hlen).
  set (img := mkPPMImage (w, h) (grid_of data w h)) in *.
  pose proof (rendered_shape img threshold) as (Hl & Hrows).
  cbn [img size fst snd] in Hl, Hrows. unfold BW, BH in *.
  assert (Hny : 0 <= (h + 4 - 1) / 4) by (apply Z.div_pos; lia).
  assert (Hnx : 0 <= (w + 2 - 1) / 2) by (apply Z.div_pos; lia).
  exists img, (rendered img threshold), ((w + 2 - 1) / 2), ((h + 4 - 1) / 4).
  split; [reflexivity|].
  split; [apply print_image_rendered; now apply well_formed_nonempty|].
  split; [Z.to_euclidean_division_equations; lia|].
  split; [Z.to_euclidean_division_equations; lia|].
  split; [lia|].
  eapply Forall_impl; [|exact Hrows]. simpl. intros l ->. lia.
Qed.

Lemma complete_file_renders_witness :
  exists img text nx ny,
    PPMImage_init (b_P6 ++ (["1"] ++ SP :: ["1"]) ++ NL :: b_255
                   ++ [x00; x00; x00])%byte = Ok img /\
    print_image img 128 [] = (Ok tt, [] ++ text) /\
    decimal ["1"]%byte <= 4 * ny < decimal ["1"]%byte + 4 /\
    decimal ["1"]%byte <= 2 * nx < decimal ["1"]%byte + 2 /\
    len text = ny /\ Forall (fun l => len l = nx) text.
Proof.
  apply (complete_file_renders ["1"]%byte ["1"]%byte
           [x00; x00; x00]%byte 128 []);
    try discriminate; try reflexivity;
    try (unfold MAX_STR_DIGITS; simpl; lia); repeat constructor.
Defined.

(** ** Only the first channel is read *)

Lemma py_index_Forall2 {A} (R : A -> A -> Prop) (l l' : list A) (i : Z) :
  Forall2 R l l' ->
  match py_index l i, py_index l' i with
  | Ok a, Ok b => R a b
  | Raise e, Raise e' => e = e'
  | _, _ => False
  end.
Proof.
  intros H. unfold py_index, len.
  rewrite <- (Forall2_length H).
  destruct ((if i <? 0 then i + Z.of_nat (List.length l) else i) <? 0);
    [reflexivity|].
  generalize (Z.to_nat (if i <? 0 then i + Z.of_nat (List.length l) else i)).
  induction H as [|a b l l' Hab _ IH]; intros [|n]; simpl; auto.
  apply IH.
Qed.

Lemma py_index_head (val : pixel) :
  py_index val 0 = match hd_error val with
                   | Some v => Ok v
                   | None => Raise IndexError
                   end.
Proof. now destruct val. Qed.

Lemma for_each_ext {A St} (xs : list A) (body body' : St -> A -> res St)
  (s : St) :
  (forall s' x, body s' x = body' s' x) ->
  for_each xs body s = for_each xs body' s.
Proof.
  intros H. revert s. induction xs as [|x xs IH]; intros s; simpl;
    [reflexivity|].
  rewrite H. destruct (body' s x); simpl; [apply IH|reflexivity].
Qed.

Lemma io_for_ext {A} (xs : list A) (body body' : A -> IO unit)
  (out : stdout) :
  (forall x o, body x o = body' x o) ->
  io_for xs body out = io_for xs body' out.
Proof.
  intros H. revert out. induction xs as [|x xs IH]; intros out; simpl;
    [reflexivity|].
  unfold io_bind. rewrite H. destruct (body' x out) as [[u|e] o];
    [apply IH|reflexivity].
Qed.

Lemma subpixel_same_first_channel (img img' : PPMImage)
  (threshold xb yb y ch x : Z) :
  same_first_channel img img' ->
  subpixel img threshold xb yb y ch x = subpixel img' threshold xb yb y ch x.
Proof.
  intros (_ & Hg). unfold subpixel, getpixel. cbn [fst snd].
  pose proof (py_index_Forall2 _ _ _ (yb * BH + y) Hg) as Hrow.
  destruct (py_index (_grid img) (yb * BH + y)) as [row|e];
    destruct (py_index (_grid img') (yb * BH + y)) as [row'|e'];
    try contradiction; simpl; [|now subst e'].
  pose proof (py_index_Forall2 _ _ _ (xb * BW + x) Hrow) as Hpx.
  destruct (py_index row (xb * BW + x)) as [val|e];
    destruct (py_index row' (xb * BW + x)) as [val'|e'];
    try contradiction; [|now subst e'].
  rewrite !py_index_head, Hpx. reflexivity.
Qed.

(** X13: [print_image] reads nothing of a pixel but its first channel: two
    images of the same size whose pixels agree on the first channel print
    the same text and end the same way, for every threshold. *)
Theorem only_first_channel_matters (img img' : PPMImage) (threshold : Z)
  (out : stdout) :
  same_first_channel img img' ->
  print_image img threshold out = print_image img' threshold out.
Proof.
  intros H. pose proof H as (Hsize & _).
  unfold print_image. cbv zeta. rewrite Hsize.
  apply io_for_ext. intros yb o.
  unfold io_bind, io_lift, build_line.
  erewrite for_each_ext; [reflexivity|].
  intros l xb. cbv beta.
  replace (block_char img threshold yb xb)
    with (block_char img' threshold yb xb); [reflexivity|].
  unfold block_char. symmetry.
  apply for_each_ext. intros ch y.
  apply for_each_ext. intros ch' x.
  now apply subpixel_same_first_channel.
Qed.

Lemma only_first_channel_matters_witness :
  print_image (mkPPMImage (1, 1) [[[0; 0; 0]]]) 128 []
  = print_image (mkPPMImage (1, 1) [[[0; 255; 7]]]) 128 [].
Proof.
  apply (only_first_channel_matters
           (mkPPMImage (1, 1) [[[0; 0; 0]]])
           (mkPPMImage (1, 1) [[[0; 255; 7]]]) 128 []).
  split; [reflexivity|]. repeat constructor.
Defined.

(* ================================================================= *)
(** * Instances of the properties of the submission and of the wallet calls *)

Lemma submit_raises_SystemExit_witness :
  exists m,
    SystemExit (MsgClass "Unexpected error when contacting faucet: "
                         "<class 'ValueError'>") = SystemExit m.
Proof.
  apply (submit_raises_SystemExit
           (fun _ => Ok None) (fun _ => false) nat (fun _ _ => Ok 200%nat)
           "not a url" (mkForm "tb1qexample" "" "0.001" None) []).
  reflexivity.
Defined.

Lemma default_faucet_refused_witness :
  is_valid_faucet_url (fun _ => Ok (Some "signetfaucet.com"%string))
                      (fun _ => true) DEFAULT_GLOBAL_FAUCET = Ok false /\
  submit_claim (fun _ => Ok (Some "signetfaucet.com"%string)) (fun _ => true)
               nat (fun _ _ => Ok 200%nat) DEFAULT_GLOBAL_FAUCET
               (mkForm "tb1qexample" "" "0.001" None) []
  = (Raise (SystemExit
              (MsgClass "Unexpected error when contacting faucet: "
                        "<class 'ValueError'>")),
     []).
Proof.
  apply (default_faucet_refused
           (fun _ => Ok (Some "signetfaucet.com"%string)) (fun _ => true)
           nat (fun _ _ => Ok 200%nat)
           (mkForm "tb1qexample" "" "0.001" None) []).
  reflexivity.
Defined.

Lemma unparsable_url_aborts_witness :
  exists m',
    submit_claim (fun _ => Raise (ValueError (Msg "Invalid IPv6 URL")))
                 (fun _ => true) nat (fun _ _ => Ok 200%nat)
                 "http://[" (mkForm "tb1qexample" "" "0.001" None) []
    = (Raise (SystemExit m'), []).
Proof.
  apply (unparsable_url_aborts
           (fun _ => Raise (ValueError (Msg "Invalid IPv6 URL")))
           (fun _ => true) nat (fun _ _ => Ok 200%nat)
           "http://[" (mkForm "tb1qexample" "" "0.001" None) []
           (Msg "Invalid IPv6 URL")).
  reflexivity.
Defined.

Lemma custom_faucet_skips_wallet_witness :
  exists a',
    prepare (fun _ => FileNotFoundError) (fun _ => Ok ""%string)
            args_custom []
    = (Ok (a', mkForm (args.addr args_custom) (args.password args_custom)
                      (args.amount args_custom) None), []) /\
    args.faucet a' = args.faucet args_custom /\
    args.captcha a'
    = if String.eqb (args.captcha args_custom) DEFAULT_GLOBAL_CAPTCHA
      then ""%string else args.captcha args_custom.
Proof.
  apply (custom_faucet_skips_wallet
           (fun _ => FileNotFoundError) (fun _ => Ok ""%string)
           args_custom []).
  - intros H. vm_compute in H. discriminate H.
  - discriminate.
Defined.

Lemma prepared_form_witness :
  address (mkForm "tb1qexample" "" "0.001" None)
  = args.addr (args.set_captcha
                 (default_cli_args args_custom) "") /\
  password (mkForm "tb1qexample" "" "0.001" None)
  = args.password args_custom /\
  amount (mkForm "tb1qexample" "" "0.001" None) = args.amount args_custom /\
  captcha (mkForm "tb1qexample" "" "0.001" None) = None /\
  args.faucet (args.set_captcha (default_cli_args args_custom) "")
  = args.faucet args_custom /\
  (args.addr args_custom <> ""%string ->
   address (mkForm "tb1qexample" "" "0.001" None) = args.addr args_custom).
Proof.
  apply (prepared_form (fun _ => FileNotFoundError) (fun _ => Ok ""%string)
           args_custom
           (args.set_captcha (default_cli_args args_custom) "")
           (mkForm "tb1qexample" "" "0.001" None) [] []).
  reflexivity.
Defined.

Lemma prepare_raises_witness :
  (exists m,
     SystemExit (Msg "The binary bitcoin-cli could not be found")
     = SystemExit m) \/
  (exists b,
     (fun _ : bytes => Ok ""%string) b
     = Raise (SystemExit (Msg "The binary bitcoin-cli could not be found"))).
Proof.
  apply (prepare_raises (fun _ => FileNotFoundError) (fun _ => Ok ""%string)
           args_default []).
  reflexivity.
Defined.

Lemma default_faucet_checks_chain_witness :
  exists output rest,
    (fun _ : list string => Completed [])
      (wallet_argv args_default ["getblockhash"; "1"]%string)
    = Completed output /\
    (fun _ : bytes => Ok GLOBAL_FIRST_BLOCK_HASH) (strip output)
    = Ok GLOBAL_FIRST_BLOCK_HASH /\
    [["bitcoin-cli"; "-signet"; "getblockhash"; "1"]%string]
    = [] ++ wallet_argv args_default ["getblockhash"; "1"]%string :: rest.
Proof.
  apply (default_faucet_checks_chain
           (fun _ => Completed []) (fun _ => Ok GLOBAL_FIRST_BLOCK_HASH)
           args_default
           (default_cli_args args_default,
            mkForm "tb1qexample" "" "0.001" None)
           [] [["bitcoin-cli"; "-signet"; "getblockhash"; "1"]%string]).
  - reflexivity.
  - reflexivity.
Defined.
